(** * Database helper of [postgre.py]: SQL construction and execution

    A shallow embedding of the [Database] class: the statements it builds
    with [psycopg2.sql], the values it binds and the calls it makes on its
    cursor, followed by the properties of the specification that concern
    them. *)

From Stdlib Require Import String Ascii List ZArith Bool Arith.
Import ListNotations.
Open Scope string_scope.

Set Warnings "-register-all".

(** ** Python values and exceptions *)

(** The values that reach the helper: scalars bound as parameters, and the
    containers [insert] inspects.  A [dict] is an association list in
    insertion order, which is the order Python iterates it in; column names
    are its keys. *)
Inductive pyval : Type :=
| PyNone
| PyBool (b : bool)
| PyInt (z : Z)
| PyStr (s : string)
| PyTuple (l : list pyval)
| PyList (l : list pyval)
| PyDict (d : list (string * pyval)).

Definition dict := list (string * pyval).

Inductive exn : Type :=
| ValueError (msg : string)
| IndexError
| TypeError
| KeyError (key : string)
| ProgrammingError
| DatabaseError (msg : string).

(** Computations that either raise or return. *)
Definition res (A : Type) : Type := (exn + A)%type.

Definition res_bind {A B} (m : res A) (k : A -> res B) : res B :=
  match m with
  | inl e => inl e
  | inr a => k a
  end.

Notation "x <-? m ;; k" := (res_bind m (fun x => k))
  (at level 61, m at next level, right associativity).

Fixpoint res_map {A B} (f : A -> res B) (l : list A) : res (list B) :=
  match l with
  | [] => inr []
  | a :: l' => b <-? f a ;; bs <-? res_map f l' ;; inr (b :: bs)
  end.

(** [d.keys()], [d.values()] and [d[k]]. *)
Definition keys (d : dict) : list string := map fst d.
Definition values (d : dict) : list pyval := map snd d.

Fixpoint dict_get (d : dict) (k : string) : option pyval :=
  match d with
  | [] => None
  | (k', v) :: d' => if String.eqb k' k then Some v else dict_get d' k
  end.

(** [v[0]].  The keys of a [dict] are column names, strings, so the
    integer 0 is not one of them. *)
Definition py_getitem0 (v : pyval) : res pyval :=
  match v with
  | PyTuple l | PyList l =>
      match l with
      | [] => inl IndexError
      | x :: _ => inr x
      end
  | PyStr s =>
      match s with
      | EmptyString => inl IndexError
      | String c _ => inr (PyStr (String c EmptyString))
      end
  | PyDict _ => inl (KeyError "0")
  | _ => inl TypeError
  end.

(** [row[col]] for a column name [col]. *)
Definition py_getitem (row : pyval) (col : string) : res pyval :=
  match row with
  | PyDict d =>
      match dict_get d col with
      | Some x => inr x
      | None => inl (KeyError col)
      end
  | _ => inl TypeError
  end.

(** [for row in data]. *)
Fixpoint chars (s : string) : list pyval :=
  match s with
  | EmptyString => []
  | String c s' => PyStr (String c EmptyString) :: chars s'
  end.

Definition py_iter (v : pyval) : res (list pyval) :=
  match v with
  | PyTuple l | PyList l => inr l
  | PyStr s => inr (chars s)
  | PyDict d => inr (map PyStr (keys d))
  | _ => inl TypeError
  end.

(** Truth value of an object, as [if exists:] and [if where:] test it. *)
Definition py_truthy (v : pyval) : bool :=
  match v with
  | PyNone => false
  | PyBool b => b
  | PyInt z => negb (Z.eqb z 0)
  | PyStr s => negb (String.eqb s EmptyString)
  | PyTuple l | PyList l => negb (Nat.eqb (length l) 0)
  | PyDict d => negb (Nat.eqb (length d) 0)
  end.

(** [v == n] for the integer [n = len(columns)]. *)
Definition py_eq_len (v : pyval) (n : nat) : bool :=
  match v with
  | PyInt z => Z.eqb z (Z.of_nat n)
  | PyBool b => Z.eqb (Z.b2z b) (Z.of_nat n)
  | _ => false
  end.

(** ** The query builder, [psycopg2.sql] *)

Module Sql.

(** [Composable] objects: raw SQL text, a quoted identifier, the
    positional placeholder, and a sequence of them. *)
Inductive Composable : Type :=
| SQL (s : string)
| Identifier (s : string)
| Placeholder
| Composed (l : list Composable).

Definition dquote : ascii := "034"%char.

(** The identifier-escaping primitive: the name between double quotes,
    every double quote inside it doubled. *)
Fixpoint escape_ident (s : string) : string :=
  match s with
  | EmptyString => EmptyString
  | String c s' =>
      if Ascii.eqb c dquote
      then String dquote (String dquote (escape_ident s'))
      else String c (escape_ident s')
  end.

Definition quote_ident (s : string) : string :=
  String dquote (escape_ident s ++ String dquote EmptyString).

(** [as_string]: the text sent to the engine. *)
Fixpoint as_string (c : Composable) : string :=
  match c with
  | SQL s => s
  | Identifier s => quote_ident s
  | Placeholder => "%s"
  | Composed l => String.concat EmptyString (map as_string l)
  end.

(** [Composed.__iter__]; any other [Composable] is not iterable. *)
Definition wrapped (c : Composable) : res (list Composable) :=
  match c with
  | Composed l => inr l
  | _ => inl TypeError
  end.

(** [a + b]. *)
Definition add (a b : Composable) : Composable :=
  let la := match a with Composed l => l | _ => [a] end in
  let lb := match b with Composed l => l | _ => [b] end in
  Composed (la ++ lb)%list.

(** [c * n]. *)
Definition mul (c : Composable) (n : nat) : Composable :=
  Composed (repeat c n).

(** [SQL(sep).join(seq)]. *)
Fixpoint intersperse (sep : Composable) (seq : list Composable)
  : list Composable :=
  match seq with
  | [] => []
  | [x] => [x]
  | x :: seq' => x :: sep :: intersperse sep seq'
  end.

Definition join (sep : string) (seq : list Composable) : Composable :=
  Composed (intersperse (SQL sep) seq).

(** [SQL(tpl).format(args...)].  The template is split at each
    replacement field; the helper only writes the automatically numbered
    field [{}], any other use of a brace is refused here. *)
Definition lbrace : ascii := "{"%char.
Definition rbrace : ascii := "}"%char.

Fixpoint formatter_parse (pre tpl : string) : res (list (string * bool)) :=
  match tpl with
  | EmptyString =>
      inr (match pre with EmptyString => [] | _ => [(pre, false)] end)
  | String c rest =>
      if Ascii.eqb c lbrace then
        match rest with
        | String c' rest' =>
            if Ascii.eqb c' rbrace
            then segs <-? formatter_parse EmptyString rest' ;;
                 inr ((pre, true) :: segs)
            else inl (ValueError "unsupported replacement field")
        | EmptyString =>
            inl (ValueError "Single '{' encountered in format string")
        end
      else if Ascii.eqb c rbrace then
        inl (ValueError "Single '}' encountered in format string")
      else formatter_parse (pre ++ String c EmptyString) rest
  end.

Definition literal (pre : string) : list Composable :=
  match pre with
  | EmptyString => []
  | _ => [SQL pre]
  end.

Fixpoint fill (segs : list (string * bool)) (args : list Composable)
  : res (list Composable) :=
  match segs with
  | [] => inr []
  | (pre, false) :: segs' =>
      rv <-? fill segs' args ;; inr (literal pre ++ rv)%list
  | (pre, true) :: segs' =>
      match args with
      | [] => inl IndexError
      | a :: args' =>
          rv <-? fill segs' args' ;; inr (literal pre ++ a :: rv)%list
      end
  end.

Definition format (tpl : string) (args : list Composable)
  : res Composable :=
  segs <-? formatter_parse EmptyString tpl ;;
  rv <-? fill segs args ;;
  inr (Composed rv).

(** The raw SQL fragments and the quoted names of a statement. *)
Fixpoint raw_fragments (c : Composable) : list string :=
  match c with
  | SQL s => [s]
  | Composed l => flat_map raw_fragments l
  | _ => []
  end.

Fixpoint identifiers (c : Composable) : list string :=
  match c with
  | Identifier s => [s]
  | Composed l => flat_map identifiers l
  | _ => []
  end.

End Sql.
Import Sql.

(** ** The connection: a state and error monad

    What the helper does to its connection is a sequence of
    [cursor.execute] calls.  The state records every call made (statement
    text and parameters, in order, whether or not the call raises), the
    lines printed, and the state of the database engine, which answers the
    calls that reach it. *)

Inductive reply : Type :=
| Done                                (* executed, no result set *)
| Rows (rs : list (list pyval))       (* executed, these rows *)
| Fail (msg : string).                (* rejected by the engine *)

Definition call : Type := (string * list pyval)%type.

Record world (DB : Type) : Type := World {
  db : DB;
  log : list call;
  out : list string
}.

Arguments World {DB}.
Arguments db {DB}.
Arguments log {DB}.
Arguments out {DB}.

Definition M (W A : Type) : Type := W -> W * res A.

Definition ret {W A} (a : A) : M W A := fun w => (w, inr a).
Definition raise {W A} (e : exn) : M W A := fun w => (w, inl e).
Definition lift {W A} (r : res A) : M W A := fun w => (w, r).

Definition bind {W A B} (m : M W A) (k : A -> M W B) : M W B :=
  fun w =>
    match m w with
    | (w', inl e) => (w', inl e)
    | (w', inr a) => k a w'
    end.

Notation "x <- m ;; k" := (bind m (fun x => k))
  (at level 61, m at next level, right associativity).

(** [for a in l: f(a)]. *)
Fixpoint for_each {W A} (f : A -> M W unit) (l : list A) : M W unit :=
  match l with
  | [] => ret tt
  | a :: l' => _ <- f a ;; for_each f l'
  end.

(** The result set a cursor holds after [execute]. *)
Definition cursor : Type := option (list (list pyval)).

Definition fetchone (cur : cursor) : res pyval :=
  match cur with
  | None => inl ProgrammingError
  | Some [] => inr PyNone
  | Some (r :: _) => inr (PyTuple r)
  end.

Definition fetchall (cur : cursor) : res (list pyval) :=
  match cur with
  | None => inl ProgrammingError
  | Some rs => inr (map PyTuple rs)
  end.

Definition accepted (r : reply) : bool :=
  match r with
  | Fail _ => false
  | _ => true
  end.

(** ** What [cursor.execute] does before anything is sent

    When [execute] is given parameters it merges them into the statement
    on the client: the text is scanned for placeholders, each placeholder
    takes the next parameter and adapts it to an SQL literal, and the text
    is then formatted.  Any of these steps can raise, and then nothing is
    sent.  Called without parameters, [execute] sends the text as it is. *)

Definition percent : ascii := "%"%char.
Definition lparen : ascii := "("%char.
Definition rparen : ascii := ")"%char.
Definition nul : ascii := "000"%char.

Fixpoint has_nul (s : string) : bool :=
  match s with
  | EmptyString => false
  | String c s' => Ascii.eqb c nul || has_nul s'
  end.

Definition nul_error : string :=
  "A string literal cannot contain NUL (0x00) characters.".

(** [adapt(v)]: every value of the model has an adapter but a [dict]. *)
Definition adapt (v : pyval) : res unit :=
  match v with
  | PyDict _ => inl ProgrammingError
  | _ => inr tt
  end.

(** [adapt(v).getquoted()]: the literal of a string cannot contain NUL; a
    list quotes its elements one after the other; a tuple adapts all its
    elements and then quotes them. *)
Fixpoint getquoted (v : pyval) : res unit :=
  match v with
  | PyNone | PyBool _ | PyInt _ => inr tt
  | PyStr s => if has_nul s then inl (ValueError nul_error) else inr tt
  | PyList l =>
      (fix each (l : list pyval) : res unit :=
         match l with
         | [] => inr tt
         | x :: l' => _ <-? getquoted x ;; each l'
         end) l
  | PyTuple l =>
      _ <-? res_map adapt l ;;
      (fix each (l : list pyval) : res unit :=
         match l with
         | [] => inr tt
         | x :: l' => _ <-? getquoted x ;; each l'
         end) l
  | PyDict _ => inl ProgrammingError
  end.

(** After [%(]: a closing parenthesis comes before the next percent sign
    and before the end of the text. *)
Fixpoint key_closes (s : string) : bool :=
  match s with
  | EmptyString => false
  | String c s' =>
      if Ascii.eqb c rparen then true
      else if Ascii.eqb c percent then false
      else key_closes s'
  end.

(** The scan for placeholders, with the parameters still to be taken.
    [%%] is a literal percent sign; [%(] asks for a parameter by name,
    which a sequence of parameters cannot give; a percent sign followed by
    anything else, or by nothing, takes the next parameter.  The result
    tells what is left of the parameters, whether one was taken and
    whether the text has to be formatted. *)
Fixpoint mogrify (q : string) (vars : list pyval) (positional convert : bool)
  : res (list pyval * bool * bool) :=
  match q with
  | EmptyString => inr (vars, positional, convert)
  | String c rest =>
      if negb (Ascii.eqb c percent) then mogrify rest vars positional convert
      else
        match rest with
        | EmptyString =>
            match vars with
            | [] => inl IndexError
            | v :: vars' => _ <-? getquoted v ;; inr (vars', true, true)
            end
        | String c1 rest1 =>
            if Ascii.eqb c1 percent then mogrify rest1 vars positional true
            else if Ascii.eqb c1 lparen then
              if positional then inl ProgrammingError
              else if key_closes rest1 then inl TypeError
              else inl ProgrammingError
            else
              match vars with
              | [] => inl IndexError
              | v :: vars' =>
                  _ <-? getquoted v ;; mogrify rest1 vars' true true
              end
        end
  end.

(** The formatting of the text: only [%s] and [%%] are understood.  (The
    messages of the library also name the character and its position.) *)
Fixpoint bytes_format (q : string) : res unit :=
  match q with
  | EmptyString => inr tt
  | String c rest =>
      if negb (Ascii.eqb c percent) then bytes_format rest
      else
        match rest with
        | EmptyString => inl (ValueError "incomplete format")
        | String c1 rest1 =>
            if Ascii.eqb c1 percent || Ascii.eqb c1 "s"%char
            then bytes_format rest1
            else if Ascii.eqb c1 lparen then inl TypeError
            else inl (ValueError "unsupported format character")
        end
  end.

(** The whole client-side step for a sequence of parameters.  A text
    without placeholder and without [%%] is not formatted at all; when a
    parameter has been taken, parameters left over after the formatting
    are a [TypeError]. *)
Definition client_check (q : string) (vars : list pyval) : res unit :=
  st <-? mogrify q vars false false ;;
  let '(rest, positional, convert) := st in
  if convert then
    _ <-? bytes_format q ;;
    if positional then
      match rest with
      | [] => inr tt
      | _ => inl TypeError
      end
    else inr tt
  else inr tt.

(** [execute(query)] and [execute(query, vars)]. *)
Definition merge (q : string) (vars : option (list pyval)) : res unit :=
  match vars with
  | None => inr tt
  | Some l => client_check q l
  end.

Definition parameters (vars : option (list pyval)) : list pyval :=
  match vars with
  | None => []
  | Some l => l
  end.

(** Text of the two catalog queries of [create_table], as written in the
    source (triple-quoted, with their line breaks and indentation). *)
Definition nl : string := String "010"%char EmptyString.

Fixpoint spaces (n : nat) : string :=
  match n with
  | O => EmptyString
  | S n' => String " "%char (spaces n')
  end.

Definition exists_query : string :=
  nl ++ spaces 16 ++ "SELECT EXISTS (" ++
  nl ++ spaces 20 ++ "SELECT FROM information_schema.tables " ++
  nl ++ spaces 20 ++ "WHERE table_schema = 'public' AND table_name = %s" ++
  nl ++ spaces 16 ++ ")" ++
  nl ++ spaces 12.

Definition count_query : string :=
  nl ++ spaces 20 ++ "SELECT COUNT(" ++ "*" ++ ") FROM information_schema.columns" ++
  nl ++ spaces 20 ++ "WHERE table_schema = 'public' AND table_name = %s" ++
  nl ++ spaces 16.

(** ** The statements the helper builds *)

(** [sql.Composed([sql.Identifier(k), sql.SQL('=%s')])]. *)
Definition equals_placeholder (k : string) : Composable :=
  Composed [Identifier k; SQL "=%s"].

Definition create_table_query (table_name : string)
    (columns : list (string * string)) : res Composable :=
  let cols :=
    String.concat ", "
      (map (fun '(name, ctype) => name ++ " " ++ ctype) columns) in
  format "CREATE TABLE IF NOT EXISTS {} ({})"
    [Identifier table_name; SQL cols].

Definition insert_sql (table_name : string) (columns : list string)
    : res Composable :=
  let cols_sql := join ", " (map Identifier columns) in
  placeholders <-? wrapped (mul Placeholder (length columns)) ;;
  let vals_sql := join ", " placeholders in
  format "INSERT INTO {} ({}) VALUES ({})"
    [Identifier table_name; cols_sql; vals_sql].

Definition select_query (table_name : string) (columns : list string)
    (where_ : option dict) : res (Composable * list pyval) :=
  let cols_sql := join ", " (map Identifier columns) in
  query <-? format "SELECT {} FROM {}" [cols_sql; Identifier table_name] ;;
  match where_ with
  | Some w =>
      if py_truthy (PyDict w) then
        let where_clause := join " AND " (map equals_placeholder (keys w)) in
        inr (add query (add (SQL " WHERE ") where_clause), values w)
      else inr (query, [])
  | None => inr (query, [])
  end.

Definition update_query (table_name : string) (data where_ : dict)
    : res (Composable * list pyval) :=
  let set_clause := join ", " (map equals_placeholder (keys data)) in
  let where_clause := join " AND " (map equals_placeholder (keys where_)) in
  query <-? format "UPDATE {} SET {} WHERE {}"
              [Identifier table_name; set_clause; where_clause] ;;
  inr (query, (values data ++ values where_)%list).

Definition delete_query (table_name : string) (where_ : dict)
    : res (Composable * list pyval) :=
  let where_clause := join " AND " (map equals_placeholder (keys where_)) in
  query <-? format "DELETE FROM {} WHERE {}"
              [Identifier table_name; where_clause] ;;
  inr (query, values where_).

Definition drop_table_query (table_name : string) : res Composable :=
  format "DROP TABLE IF EXISTS {}" [Identifier table_name].

(** The statements of [_ensure_database]. *)
Definition database_query : string :=
  "SELECT 1 FROM pg_database WHERE datname = %s".

Definition create_database_query (dbname : string) : res Composable :=
  format "CREATE DATABASE {}" [Identifier dbname].

Definition insert_error : string :=
  "Insert data must be a list of dictionaries with column names as keys.".

(** The rows [insert] binds: [data] wrapped in a list when it is a single
    mapping; the first element decides the columns; every row is indexed by
    every column before anything is executed. *)
Definition insert_values (data : pyval)
    : res (list string * list (list pyval)) :=
  let data := match data with
              | PyDict _ => PyList [data]
              | _ => data
              end in
  first <-? py_getitem0 data ;;
  match first with
  | PyDict d0 =>
      let columns := keys d0 in
      rows <-? py_iter data ;;
      values <-? res_map (fun row => res_map (py_getitem row) columns) rows ;;
      inr (columns, values)
  | _ => inl (ValueError insert_error)
  end.

(** ** The operations *)

Section Engine.

Variable DB : Type.
Variable engine : string -> list pyval -> DB -> DB * reply.

(** [cur.execute(query)] and [cur.execute(query, vars)]: the call is
    recorded; the parameters, if any, are merged on the client, and an
    exception there leaves the engine untouched; otherwise the engine
    answers, and a rejection is raised as an exception. *)
Definition execute (query : string) (vars : option (list pyval))
  : M (world DB) cursor :=
  fun w =>
    let called := (log w ++ [(query, parameters vars)])%list in
    match merge query vars with
    | inl e => ({| db := db w; log := called; out := out w |}, inl e)
    | inr _ =>
        let '(d', r) := engine query (parameters vars) (db w) in
        let w' := {| db := d'; log := called; out := out w |} in
        match r with
        | Done => (w', inr None)
        | Rows rs => (w', inr (Some rs))
        | Fail msg => (w', inl (DatabaseError msg))
        end
    end.

(** The exception an [execute] call raises when the engine is in state
    [d], if it raises, and the state of the engine after the call. *)
Definition call_error (query : string) (vars : option (list pyval))
    (d : DB) : option exn :=
  match merge query vars with
  | inl e => Some e
  | inr _ =>
      match snd (engine query (parameters vars) d) with
      | Fail msg => Some (DatabaseError msg)
      | _ => None
      end
  end.

Definition state_after (query : string) (vars : option (list pyval))
    (d : DB) : DB :=
  match merge query vars with
  | inl _ => d
  | inr _ => fst (engine query (parameters vars) d)
  end.

(** Every call of the loop of [insert] goes through, from state [d] on:
    the client-side step passes and the engine accepts the statement, each
    row in the state the rows before it have left. *)
Fixpoint all_accepted (text : string) (rows : list (list pyval)) (d : DB)
  : bool :=
  match rows with
  | [] => true
  | p :: rows' =>
      match call_error text (Some p) d with
      | Some _ => false
      | None => all_accepted text rows' (state_after text (Some p) d)
      end
  end.

Definition print (line : string) : M (world DB) unit :=
  fun w =>
    ({| db := db w; log := log w; out := (out w ++ [line])%list |}, inr tt).

Definition create_table (table_name : string)
    (columns : list (string * string)) : M (world DB) unit :=
  query <- lift (create_table_query table_name columns) ;;
  _ <- execute (as_string query) None ;;
  cur <- execute exists_query (Some [PyStr table_name]) ;;
  row <- lift (fetchone cur) ;;
  exists_ <- lift (py_getitem0 row) ;;
  if py_truthy exists_ then
    cur <- execute count_query (Some [PyStr table_name]) ;;
    row <- lift (fetchone cur) ;;
    col_count <- lift (py_getitem0 row) ;;
    if py_eq_len col_count (length columns) then
      print ("Table '" ++ table_name
             ++ "' did not exist. Created new table.")
    else
      print ("Table '" ++ table_name ++ "' already exists.")
  else
    print ("Table '" ++ table_name
           ++ "' was not created due to an unknown error.").

(** [for row in values: cur.execute(insert_sql, row)]. *)
Definition execute_each (text : string) (rows : list (list pyval))
  : M (world DB) unit :=
  for_each (fun row => _ <- execute text (Some row) ;; ret tt) rows.

Definition insert (table_name : string) (data : pyval) : M (world DB) unit :=
  cv <- lift (insert_values data) ;;
  let '(columns, values) := cv in
  insert_sql <- lift (insert_sql table_name columns) ;;
  execute_each (as_string insert_sql) values.

Definition select (table_name : string) (columns : list string)
    (where_ : option dict) : M (world DB) (list pyval) :=
  qp <- lift (select_query table_name columns where_) ;;
  let '(query, params) := qp in
  cur <- execute (as_string query) (Some params) ;;
  lift (fetchall cur).

Definition update (table_name : string) (data where_ : dict) : M (world DB) unit :=
  qp <- lift (update_query table_name data where_) ;;
  let '(query, params) := qp in
  _ <- execute (as_string query) (Some params) ;;
  ret tt.

Definition delete (table_name : string) (where_ : dict) : M (world DB) unit :=
  qp <- lift (delete_query table_name where_) ;;
  let '(query, params) := qp in
  _ <- execute (as_string query) (Some params) ;;
  ret tt.

Definition drop_table (table_name : string) : M (world DB) unit :=
  query <- lift (drop_table_query table_name) ;;
  _ <- execute (as_string query) None ;;
  ret tt.

(** [_ensure_database], on the temporary connection to the [postgres]
    database: the catalog is asked for the target database, which is
    created when no row comes back. *)
Definition _ensure_database (dbname : string) : M (world DB) unit :=
  cur <- execute database_query (Some [PyStr dbname]) ;;
  exists_ <- lift (fetchone cur) ;;
  if negb (py_truthy exists_) then
    query <- lift (create_database_query dbname) ;;
    _ <- execute (as_string query) None ;;
    print ("Database '" ++ dbname
           ++ "' did not exist. Created new database.")
  else
    print ("Database '" ++ dbname ++ "' already exists.").

End Engine.

Arguments execute {DB}.
Arguments call_error {DB}.
Arguments state_after {DB}.
Arguments all_accepted {DB}.
Arguments print {DB}.
Arguments execute_each {DB}.
Arguments create_table {DB}.
Arguments insert {DB}.
Arguments select {DB}.
Arguments update {DB}.
Arguments delete {DB}.
Arguments drop_table {DB}.
Arguments _ensure_database {DB}.

(** ** The SQL text of each statement

    The shapes of the specification, written directly as text: names
    between double quotes, [%s] for each bound value. *)

Definition condition (k : string) : string := quote_ident k ++ "=%s".

Definition flat_create (t : string) (columns : list (string * string))
  : string :=
  "CREATE TABLE IF NOT EXISTS " ++ quote_ident t ++ " ("
  ++ String.concat ", "
       (map (fun '(name, ctype) => name ++ " " ++ ctype) columns)
  ++ ")".

Definition flat_insert (t : string) (cols : list string) : string :=
  "INSERT INTO " ++ quote_ident t
  ++ " (" ++ String.concat ", " (map quote_ident cols)
  ++ ") VALUES (" ++ String.concat ", " (repeat "%s" (length cols)) ++ ")".

Definition flat_where (wcols : list string) : string :=
  match wcols with
  | [] => EmptyString
  | _ => " WHERE " ++ String.concat " AND " (map condition wcols)
  end.

Definition flat_select (t : string) (cols wcols : list string) : string :=
  "SELECT " ++ String.concat ", " (map quote_ident cols)
  ++ " FROM " ++ quote_ident t ++ flat_where wcols.

Definition flat_update (t : string) (dcols wcols : list string) : string :=
  "UPDATE " ++ quote_ident t
  ++ " SET " ++ String.concat ", " (map condition dcols)
  ++ " WHERE " ++ String.concat " AND " (map condition wcols).

Definition flat_delete (t : string) (wcols : list string) : string :=
  "DELETE FROM " ++ quote_ident t
  ++ " WHERE " ++ String.concat " AND " (map condition wcols).

Definition flat_drop (t : string) : string :=
  "DROP TABLE IF EXISTS " ++ quote_ident t.

(** The keys and values of the optional condition of [select]. *)
Definition where_keys (w : option dict) : list string :=
  match w with
  | Some d => keys d
  | None => []
  end.

Definition where_values (w : option dict) : list pyval :=
  match w with
  | Some d => values d
  | None => []
  end.

(** [starts_with pre s] and [ends_with suffix s]. *)
Fixpoint starts_with (pre s : string) : bool :=
  match pre with
  | EmptyString => true
  | String a pre' =>
      match s with
      | EmptyString => false
      | String b s' => Ascii.eqb a b && starts_with pre' s'
      end
  end.

Fixpoint ends_with (suffix s : string) : bool :=
  String.eqb s suffix
  || match s with
     | EmptyString => false
     | String _ s' => ends_with suffix s'
     end.

(** ** Rows and columns of an insert *)

(** [has_keys cols row]: [row] has an entry for every column. *)
Definition has_key (row : dict) (c : string) : bool :=
  match dict_get row c with
  | Some _ => true
  | None => false
  end.

Definition has_keys (cols : list string) (row : dict) : bool :=
  forallb (has_key row) cols.

(** Two rows have the same key set. *)
Definition same_keys (r1 r2 : dict) : bool :=
  forallb (has_key r2) (keys r1) && forallb (has_key r1) (keys r2).

(** The values of [row] under [cols], in the order of [cols]. *)
Definition bound (cols : list string) (row : dict) : list pyval :=
  flat_map (fun c => match dict_get row c with
                     | Some v => [v]
                     | None => []
                     end) cols.

(** [row] without the entries whose key is not in [cols]. *)
Definition restrict (cols : list string) (row : dict) : dict :=
  filter (fun kv => existsb (String.eqb (fst kv)) cols) row.

(** The shapes of [data] that are a mapping or a sequence of mappings. *)
Inductive insert_data : pyval -> list dict -> Prop :=
| one_mapping (d : dict) : insert_data (PyDict d) [d]
| list_of_mappings (rows : list dict) :
    insert_data (PyList (map PyDict rows)) rows
| tuple_of_mappings (rows : list dict) :
    insert_data (PyTuple (map PyDict rows)) rows.

(** [data] is a mapping, or [data[0]] is one. *)
Definition first_is_mapping (data : pyval) : bool :=
  match data with
  | PyDict _ => true
  | _ => match py_getitem0 data with
         | inr (PyDict _) => true
         | _ => false
         end
  end.


(** ** The reports of table creation *)

Inductive outcome : Type :=
| NewlyCreated
| AlreadyExisted
| CreationFailed.

Definition report (t : string) (o : outcome) : string :=
  match o with
  | NewlyCreated => "Table '" ++ t ++ "' did not exist. Created new table."
  | AlreadyExisted => "Table '" ++ t ++ "' already exists."
  | CreationFailed =>
      "Table '" ++ t ++ "' was not created due to an unknown error."
  end.

(** ** Engines and inputs for concrete runs

    The database engine is not part of the helper.  The properties below
    hold for any engine, or for any engine that meets a stated condition;
    these small engines show that the conditions can be met and let the
    operations run on concrete inputs. *)

(** A connection on which nothing has been executed yet. *)
Definition fresh {DB : Type} (d : DB) : world DB :=
  {| db := d; log := []; out := [] |}.

(** An engine that accepts every statement and keeps what it was sent. *)
Definition accepting_engine (q : string) (p : list pyval) (d : list call)
  : list call * reply :=
  ((d ++ [(q, p)])%list, Done).

Definition syntax_error : string := "syntax error at end of input".

(** An engine that applies one rule of the SQL grammar, the one at stake
    for an empty condition: the keyword WHERE is followed by a condition.
    A statement that ends after WHERE is a syntax error and changes
    nothing; any other statement is accepted and kept. *)
Definition checking_engine (q : string) (p : list pyval) (d : list call)
  : list call * reply :=
  if ends_with " WHERE " q then (d, Fail syntax_error)
  else ((d ++ [(q, p)])%list, Done).

(** An engine whose catalog answers are fixed: whether the table is
    listed, and with how many columns.  Other statements are accepted and
    kept. *)
Definition catalog_engine (listed : bool) (column_count : Z)
    (q : string) (p : list pyval) (d : list call) : list call * reply :=
  if String.eqb q exists_query then (d, Rows [[PyBool listed]])
  else if String.eqb q count_query then (d, Rows [[PyInt column_count]])
  else ((d ++ [(q, p)])%list, Done).

(** An engine that answers every statement starting with SELECT without
    changing its state, and keeps every other statement. *)
Definition reading_engine (q : string) (p : list pyval) (d : list call)
  : list call * reply :=
  if starts_with "SELECT " q then (d, Rows [])
  else ((d ++ [(q, p)])%list, Done).


(** The table and the rows of the example at the end of [postgre.py], and
    rows whose key sets differ or whose keys come in different orders. *)
Definition test_columns : list (string * string) :=
  [("id", "SERIAL PRIMARY KEY"); ("name", "VARCHAR(100)");
   ("value", "INTEGER")].

Definition item1 : dict := [("name", PyStr "Item 1"); ("value", PyInt 10)].
Definition item2 : dict := [("value", PyInt 20); ("name", PyStr "Item 2")].
Definition row_a : dict := [("a", PyInt 1)].
Definition row_ab : dict := [("a", PyInt 2); ("b", PyInt 3)].

(** ** Further definitions for the properties of the operations *)


(** The state of the engine after the calls of the loop of [insert] for
    the given rows. *)
Fixpoint state_after_all {DB : Type}
    (engine : string -> list pyval -> DB -> DB * reply)
    (text : string) (rows : list (list pyval)) (d : DB) : DB :=
  match rows with
  | [] => d
  | p :: rows' =>
      state_after_all engine text rows' (state_after engine text (Some p) d)
  end.

(** The number of positional placeholders of a composed statement. *)
Fixpoint placeholders (c : Composable) : nat :=
  match c with
  | Placeholder => 1
  | Composed l => list_sum (map placeholders l)
  | _ => 0
  end.

(** The three single-row inserts of the example, one after the other. *)
Definition insert_each {DB : Type}
    (engine : string -> list pyval -> DB -> DB * reply)
    (t : string) (rows : list dict) : M (world DB) unit :=
  for_each (fun row => insert engine t (PyDict row)) rows.

(** An engine whose catalog lists the target database, or does not; it
    accepts and keeps every other statement. *)
Definition database_engine (present : bool) (q : string) (p : list pyval)
    (d : list call) : list call * reply :=
  if String.eqb q database_query
  then (d, Rows (if present then [[PyInt 1]] else []))
  else ((d ++ [(q, p)])%list, Done).

(** An engine whose catalog does not list the target database and that
    rejects every other statement, as when another client creates the
    database between the lookup and the CREATE DATABASE. *)
Definition duplicate_database : string := "database already exists".

Definition racing_engine (q : string) (p : list pyval) (d : list call)
  : list call * reply :=
  if String.eqb q database_query then (d, Rows [])
  else (d, Fail duplicate_database).

(** An engine that accepts the statements sent to it until it has kept
    [n] of them, and rejects every statement after that. *)
Definition limited_engine (n : nat) (q : string) (p : list pyval)
    (d : list call) : list call * reply :=
  if Nat.ltb (length d) n then ((d ++ [(q, p)])%list, Done)
  else (d, Fail "rejected").

Definition item3 : dict := [("name", PyStr "Item 3"); ("value", PyInt 30)].

(** * Properties *)

Example format_drop (t : string) :
  format "DROP TABLE IF EXISTS {}" [Identifier t]
  = inr (Composed [SQL "DROP TABLE IF EXISTS "; Identifier t]).
Proof. reflexivity. Qed.

(** ** Text of the composed objects *)

Section Rendering.

Lemma append_assoc (a b c : string) : (a ++ b) ++ c = a ++ (b ++ c).
Proof. induction a as [|x a IH]; simpl; [reflexivity|now rewrite IH]. Qed.

Lemma append_nil_r (a : string) : a ++ EmptyString = a.
Proof. induction a as [|x a IH]; simpl; [reflexivity|now rewrite IH]. Qed.

Lemma concat_nil_cons (x : string) (xs : list string) :
  String.concat EmptyString (x :: xs) = x ++ String.concat EmptyString xs.
Proof. destruct xs; simpl; [now rewrite append_nil_r|reflexivity]. Qed.

Lemma concat_nil_app (l1 l2 : list string) :
  String.concat EmptyString (l1 ++ l2)
  = String.concat EmptyString l1 ++ String.concat EmptyString l2.
Proof.
  induction l1 as [|x l1 IH].
  - reflexivity.
  - rewrite <- app_comm_cons, !concat_nil_cons, IH.
    now rewrite append_assoc.
Qed.

Lemma as_string_Composed (l : list Composable) :
  as_string (Composed l) = String.concat EmptyString (map as_string l).
Proof. reflexivity. Qed.

Lemma as_string_intersperse (sep : string) (l : list Composable) :
  String.concat EmptyString (map as_string (intersperse (SQL sep) l))
  = String.concat sep (map as_string l).
Proof.
  induction l as [|x l IH]; [reflexivity|].
  destruct l as [|y l]; [reflexivity|].
  change (intersperse (SQL sep) (x :: y :: l))
    with (x :: SQL sep :: intersperse (SQL sep) (y :: l)).
  rewrite !map_cons, !concat_nil_cons, IH.
  reflexivity.
Qed.

Lemma as_string_join (sep : string) (l : list Composable) :
  as_string (join sep l) = String.concat sep (map as_string l).
Proof. apply as_string_intersperse. Qed.

Lemma as_string_idents (sep : string) (cols : list string) :
  as_string (join sep (map Identifier cols))
  = String.concat sep (map quote_ident cols).
Proof. now rewrite as_string_join, map_map. Qed.

Lemma as_string_conditions (sep : string) (ks : list string) :
  as_string (join sep (map equals_placeholder ks))
  = String.concat sep (map condition ks).
Proof.
  rewrite as_string_join, map_map. reflexivity.
Qed.

Lemma as_string_placeholders (n : nat) :
  as_string (join ", " (repeat Placeholder n))
  = String.concat ", " (repeat "%s" n).
Proof. now rewrite as_string_join, map_repeat. Qed.

End Rendering.

(** The object each builder returns, and its text. *)

Section Statements.

Variables (t : string).

Lemma create_table_query_eq (columns : list (string * string)) :
  create_table_query t columns
  = inr (Composed
           [SQL "CREATE TABLE IF NOT EXISTS "; Identifier t; SQL " (";
            SQL (String.concat ", "
                   (map (fun '(name, ctype) => name ++ " " ++ ctype) columns));
            SQL ")"]).
Proof. reflexivity. Qed.

Lemma insert_sql_eq (cols : list string) :
  insert_sql t cols
  = inr (Composed
           [SQL "INSERT INTO "; Identifier t; SQL " (";
            join ", " (map Identifier cols); SQL ") VALUES (";
            join ", " (repeat Placeholder (length cols)); SQL ")"]).
Proof. reflexivity. Qed.

Lemma insert_sql_text (cols : list string) :
  exists q,
    insert_sql t cols = inr q /\ as_string q = flat_insert t cols.
Proof.
  eexists. split; [apply insert_sql_eq|].
  rewrite as_string_Composed. cbn [map].
  rewrite as_string_idents, as_string_placeholders.
  reflexivity.
Qed.

Lemma update_query_eq (data where_ : dict) :
  update_query t data where_
  = inr (Composed
           [SQL "UPDATE "; Identifier t; SQL " SET ";
            join ", " (map equals_placeholder (keys data)); SQL " WHERE ";
            join " AND " (map equals_placeholder (keys where_))],
         (values data ++ values where_)%list).
Proof. reflexivity. Qed.

Lemma update_query_text (data where_ : dict) :
  exists q,
    update_query t data where_
    = inr (q, (values data ++ values where_)%list)
    /\ as_string q = flat_update t (keys data) (keys where_).
Proof.
  eexists. split; [apply update_query_eq|].
  rewrite as_string_Composed. cbn [map].
  rewrite !as_string_conditions.
  reflexivity.
Qed.

Lemma delete_query_eq (where_ : dict) :
  delete_query t where_
  = inr (Composed
           [SQL "DELETE FROM "; Identifier t; SQL " WHERE ";
            join " AND " (map equals_placeholder (keys where_))],
         values where_).
Proof. reflexivity. Qed.

Lemma delete_query_text (where_ : dict) :
  exists q,
    delete_query t where_ = inr (q, values where_)
    /\ as_string q = flat_delete t (keys where_).
Proof.
  eexists. split; [apply delete_query_eq|].
  rewrite as_string_Composed. cbn [map].
  rewrite as_string_conditions.
  reflexivity.
Qed.

Lemma drop_table_query_eq :
  drop_table_query t
  = inr (Composed [SQL "DROP TABLE IF EXISTS "; Identifier t]).
Proof. reflexivity. Qed.

Lemma select_query_all (cols : list string) (w : option dict) :
  where_keys w = [] ->
  select_query t cols w
  = inr (Composed
           [SQL "SELECT "; join ", " (map Identifier cols); SQL " FROM ";
            Identifier t], []).
Proof.
  destruct w as [[|kv d]|]; [reflexivity|discriminate|reflexivity].
Qed.

Lemma select_query_where (cols : list string) (kv : string * pyval)
    (d : dict) :
  select_query t cols (Some (kv :: d))
  = inr (Composed
           ([SQL "SELECT "; join ", " (map Identifier cols); SQL " FROM ";
             Identifier t]
            ++ SQL " WHERE "
               :: intersperse (SQL " AND ")
                    (map equals_placeholder (keys (kv :: d))))%list,
         values (kv :: d)).
Proof. reflexivity. Qed.

Lemma select_query_text (cols : list string) (w : option dict) :
  exists q,
    select_query t cols w = inr (q, where_values w)
    /\ as_string q = flat_select t cols (where_keys w).
Proof.
  destruct w as [[|kv d]|].
  - eexists. split; [now apply select_query_all|].
    rewrite as_string_Composed. cbn [map].
    rewrite as_string_idents. unfold flat_select. cbn [where_keys keys map flat_where].
    rewrite append_nil_r. reflexivity.
  - eexists. split; [apply select_query_where|].
    rewrite as_string_Composed, map_app, concat_nil_app.
    rewrite (map_cons as_string (SQL " WHERE ")), (concat_nil_cons (as_string (SQL " WHERE "))).
    rewrite as_string_intersperse, map_map.
    cbn [map]. rewrite as_string_idents.
    unfold flat_select, flat_where, where_keys.
    destruct kv as [k v]. cbn [keys map fst].
    cbn [String.concat as_string].
    rewrite !append_assoc. reflexivity.
  - eexists. split; [now apply select_query_all|].
    rewrite as_string_Composed. cbn [map].
    rewrite as_string_idents. unfold flat_select. cbn [where_keys flat_where].
    rewrite append_nil_r. reflexivity.
Qed.

End Statements.

(** ** Indexing the rows of an insert *)

Section Rows.

Lemma dict_get_key (d : dict) (k : string) :
  In k (keys d) -> has_key d k = true.
Proof.
  unfold has_key. induction d as [|[k' v] d IH]; simpl; [tauto|].
  intros [->|Hin].
  - now rewrite String.eqb_refl.
  - destruct (String.eqb k' k); [reflexivity|now apply IH].
Qed.

Lemma has_keys_self (d : dict) : has_keys (keys d) d = true.
Proof.
  unfold has_keys. apply forallb_forall. intros k. apply dict_get_key.
Qed.

Lemma bound_spec (cols : list string) (row : dict) :
  has_keys cols row = true ->
  Forall2 (fun c v => dict_get row c = Some v) cols (bound cols row).
Proof.
  unfold has_keys, bound, has_key.
  induction cols as [|c cols IH]; simpl; intros H; [constructor|].
  apply andb_prop in H as [Hc Hcols].
  destruct (dict_get row c) as [v|] eqn:E; [|discriminate].
  simpl. constructor; [exact E|now apply IH].
Qed.

Lemma bound_length (cols : list string) (row : dict) :
  has_keys cols row = true -> length (bound cols row) = length cols.
Proof.
  intros H. symmetry. eapply Forall2_length, bound_spec, H.
Qed.

(** Indexing one row by every column: the bound values, or the
    [KeyError] of the first column the row lacks. *)
Lemma row_getitems (cols : list string) (row : dict) :
  (has_keys cols row = true
   /\ res_map (py_getitem (PyDict row)) cols = inr (bound cols row))
  \/ (has_keys cols row = false
      /\ exists k, In k cols /\ has_key row k = false
           /\ res_map (py_getitem (PyDict row)) cols = inl (KeyError k)).
Proof.
  unfold has_keys, bound, has_key.
  induction cols as [|c cols IH]; simpl; [left; split; reflexivity|].
  destruct (dict_get row c) as [v|] eqn:E; simpl.
  - destruct IH as [[Hk Hr]|[Hk (k & Hin & Hmiss & Hr)]].
    + left. rewrite Hr. split; [exact Hk|reflexivity].
    + right. rewrite Hr. split; [exact Hk|].
      exists k. repeat split; [now right|exact Hmiss].
  - right. split; [reflexivity|].
    exists c. rewrite E. repeat split. now left.
Qed.

Lemma rows_getitems_ok (cols : list string) (rows : list dict) :
  forallb (has_keys cols) rows = true ->
  res_map (fun row => res_map (py_getitem row) cols) (map PyDict rows)
  = inr (map (bound cols) rows).
Proof.
  induction rows as [|r rows IH]; simpl; intros H; [reflexivity|].
  apply andb_prop in H as [Hr Hrows].
  destruct (row_getitems cols r) as [[_ E]|[E _]]; [|congruence].
  rewrite E. simpl. now rewrite IH.
Qed.

Lemma rows_getitems_missing (cols : list string) (rows : list dict) :
  forallb (has_keys cols) rows = false ->
  exists r k,
    In r rows /\ In k cols /\ has_key r k = false
    /\ res_map (fun row => res_map (py_getitem row) cols) (map PyDict rows)
       = inl (KeyError k).
Proof.
  induction rows as [|r rows IH]; simpl; intros H; [discriminate|].
  destruct (row_getitems cols r) as [[Hk E]|[_ (k & Hin & Hmiss & E)]].
  - rewrite Hk in H. simpl in H.
    destruct (IH H) as (r' & k & Hr' & Hin & Hmiss & E').
    exists r', k. rewrite E, E'. repeat split; try assumption. now right.
  - exists r, k. rewrite E. repeat split; try assumption. now left.
Qed.

(** What [insert] computes before it executes anything. *)
Lemma insert_values_ok (data : pyval) (first : dict) (rest : list dict) :
  insert_data data (first :: rest) ->
  forallb (has_keys (keys first)) rest = true ->
  insert_values data
  = inr (keys first, map (bound (keys first)) (first :: rest)).
Proof.
  intros Hshape Hkeys.
  assert (Hall : forallb (has_keys (keys first)) (first :: rest) = true).
  { simpl. now rewrite has_keys_self, Hkeys. }
  inversion Hshape as [d Hd Hr | rows Hd Hr | rows Hd Hr]; subst;
    unfold insert_values; cbn [py_getitem0 map res_bind py_iter].
  - change [PyDict first] with (map PyDict [first]).
    rewrite rows_getitems_ok by exact Hall. reflexivity.
  - change (PyDict first :: map PyDict rest)
      with (map PyDict (first :: rest)).
    rewrite rows_getitems_ok by exact Hall. reflexivity.
  - change (PyDict first :: map PyDict rest)
      with (map PyDict (first :: rest)).
    rewrite rows_getitems_ok by exact Hall. reflexivity.
Qed.

End Rows.

(** ** What each operation sends to the engine *)

Section Runs.

Variable DB : Type.
Variable engine : string -> list pyval -> DB -> DB * reply.

(** One [execute] call: the call is recorded; the engine moves only if
    the client-side step passes; the exception, if any, is that of the
    client-side step or the engine's rejection. *)
Lemma execute_eq (q : string) (vars : option (list pyval)) (w : world DB) :
  execute engine q vars w
  = ({| db := state_after engine q vars (db w);
        log := (log w ++ [(q, parameters vars)])%list;
        out := out w |},
     match call_error engine q vars (db w) with
     | Some e => inl e
     | None =>
         inr match snd (engine q (parameters vars) (db w)) with
             | Rows rs => Some rs
             | _ => None
             end
     end).
Proof.
  unfold execute, state_after, call_error.
  destruct (merge q vars) as [e|[]]; [reflexivity|].
  destruct (engine q (parameters vars) (db w)) as [d' []]; reflexivity.
Qed.

Lemma execute_log (q : string) (vars : option (list pyval))
    (w : world DB) :
  log (fst (execute engine q vars w))
  = (log w ++ [(q, parameters vars)])%list
  /\ out (fst (execute engine q vars w)) = out w
  /\ db (fst (execute engine q vars w)) = state_after engine q vars (db w).
Proof. rewrite execute_eq. repeat split. Qed.

(** An [execute] whose cursor is not read. *)
Lemma execute_only (q : string) (vars : option (list pyval))
    (w : world DB) :
  (_ <- execute engine q vars ;; ret tt) w
  = ({| db := state_after engine q vars (db w);
        log := (log w ++ [(q, parameters vars)])%list;
        out := out w |},
     match call_error engine q vars (db w) with
     | Some e => inl e
     | None => inr tt
     end).
Proof.
  unfold bind. rewrite execute_eq.
  destruct (call_error engine q vars (db w)); reflexivity.
Qed.

(** A call without parameters goes to the engine as it is. *)
Lemma state_after_None (q : string) (d : DB) :
  state_after engine q None d = fst (engine q [] d).
Proof. reflexivity. Qed.

Lemma call_error_None (q : string) (d : DB) :
  call_error engine q None d
  = match snd (engine q [] d) with
    | Fail msg => Some (DatabaseError msg)
    | _ => None
    end.
Proof. reflexivity. Qed.

Lemma insert_run (t : string) (data : pyval) (cols : list string)
    (vals : list (list pyval)) (w : world DB) :
  insert_values data = inr (cols, vals) ->
  insert engine t data w = execute_each engine (flat_insert t cols) vals w.
Proof.
  intros H. destruct (insert_sql_text t cols) as (q & Hq & Ht).
  unfold insert, bind, lift. rewrite H. cbv beta iota.
  rewrite Hq, Ht. reflexivity.
Qed.

Lemma insert_raises (t : string) (data : pyval) (e : exn) (w : world DB) :
  insert_values data = inl e ->
  insert engine t data w = (w, inl e).
Proof.
  intros H. unfold insert, bind, lift. now rewrite H.
Qed.

Lemma execute_each_cons (text : string) (p : list pyval)
    (vals : list (list pyval)) (w : world DB) :
  execute_each engine text (p :: vals) w
  = let w' := {| db := state_after engine text (Some p) (db w);
                 log := (log w ++ [(text, p)])%list;
                 out := out w |} in
    match call_error engine text (Some p) (db w) with
    | Some e => (w', inl e)
    | None => execute_each engine text vals w'
    end.
Proof.
  unfold execute_each. cbn [for_each]. unfold bind at 1.
  rewrite execute_only. cbn [parameters].
  destruct (call_error engine text (Some p) (db w)); reflexivity.
Qed.

Lemma execute_each_accepted (text : string) (vals : list (list pyval))
    (w : world DB) :
  all_accepted engine text vals (db w) = true ->
  snd (execute_each engine text vals w) = inr tt
  /\ log (fst (execute_each engine text vals w))
     = (log w ++ map (pair text) vals)%list
  /\ out (fst (execute_each engine text vals w)) = out w.
Proof.
  revert w. induction vals as [|p vals IH]; intros w Hacc.
  - simpl. now rewrite app_nil_r.
  - rewrite execute_each_cons. cbv zeta. cbn [all_accepted] in Hacc.
    destruct (call_error engine text (Some p) (db w)); [discriminate|].
    match goal with
    | |- context [execute_each engine text vals ?w'] =>
        destruct (IH w' Hacc) as (Hr & Hl & Ho)
    end.
    rewrite Hr, Hl, Ho. cbn [log out map].
    rewrite <- app_assoc. repeat split.
Qed.

(** The loop returns exactly when every call goes through. *)
Lemma execute_each_returns (text : string) (vals : list (list pyval))
    (w : world DB) :
  snd (execute_each engine text vals w) = inr tt
  <-> all_accepted engine text vals (db w) = true.
Proof.
  revert w. induction vals as [|p vals IH]; intros w.
  - simpl. split; reflexivity.
  - rewrite execute_each_cons. cbv zeta. cbn [all_accepted].
    destruct (call_error engine text (Some p) (db w)).
    + cbn [snd]. split; discriminate.
    + match goal with
      | |- context [execute_each engine text vals ?w'] =>
          exact (IH w')
      end.
Qed.

(** Whatever happens, the calls of the loop are the first rows, in
    order: it stops at the first call that raises. *)
Lemma execute_each_sends_prefix (text : string)
    (vals : list (list pyval)) (w : world DB) :
  exists k,
    k <= length vals
    /\ log (fst (execute_each engine text vals w))
       = (log w ++ map (pair text) (firstn k vals))%list.
Proof.
  revert w. induction vals as [|p vals IH]; intros w.
  - exists 0. split; [apply Nat.le_refl|]. simpl. now rewrite app_nil_r.
  - rewrite execute_each_cons. cbv zeta.
    destruct (call_error engine text (Some p) (db w)).
    + exists 1. split; [simpl; apply le_n_S, Nat.le_0_l|]. reflexivity.
    + match goal with
      | |- context [execute_each engine text vals ?w'] =>
          destruct (IH w') as (k & Hk & Hl)
      end.
      exists (S k). split; [simpl; now apply le_n_S|].
      rewrite Hl. cbn [log firstn map]. now rewrite <- app_assoc.
Qed.

Lemma drop_table_run (t : string) (w : world DB) :
  drop_table engine t w
  = (_ <- execute engine (flat_drop t) None ;; ret tt) w.
Proof. reflexivity. Qed.

Lemma select_run (t : string) (cols : list string) (where_ : option dict)
    (w : world DB) :
  select engine t cols where_ w
  = (cur <- execute engine (flat_select t cols (where_keys where_))
              (Some (where_values where_)) ;;
     lift (fetchall cur)) w.
Proof.
  destruct (select_query_text t cols where_) as (q & Hq & Ht).
  unfold select, bind at 1, lift at 1. rewrite Hq. cbv beta iota.
  now rewrite Ht.
Qed.

Lemma update_run (t : string) (data where_ : dict) (w : world DB) :
  update engine t data where_ w
  = (_ <- execute engine (flat_update t (keys data) (keys where_))
            (Some (values data ++ values where_)%list) ;;
     ret tt) w.
Proof.
  destruct (update_query_text t data where_) as (q & Hq & Ht).
  unfold update, bind at 1, lift at 1. rewrite Hq. cbv beta iota.
  now rewrite Ht.
Qed.

Lemma delete_run (t : string) (where_ : dict) (w : world DB) :
  delete engine t where_ w
  = (_ <- execute engine (flat_delete t (keys where_))
            (Some (values where_)) ;;
     ret tt) w.
Proof.
  destruct (delete_query_text t where_) as (q & Hq & Ht).
  unfold delete, bind at 1, lift at 1. rewrite Hq. cbv beta iota.
  now rewrite Ht.
Qed.

End Runs.

(** ** Insert *)

Section InsertFacts.

Lemma insert_values_missing (data : pyval) (first : dict)
    (rest : list dict) :
  insert_data data (first :: rest) ->
  forallb (has_keys (keys first)) rest = false ->
  exists r k,
    In r rest /\ In k (keys first) /\ has_key r k = false
    /\ insert_values data = inl (KeyError k).
Proof.
  intros Hshape Hkeys.
  assert (Hall : forallb (has_keys (keys first)) (first :: rest) = false).
  { simpl. now rewrite has_keys_self, Hkeys. }
  destruct (rows_getitems_missing _ _ Hall) as (r & k & Hr & Hin & Hk & E).
  exists r, k.
  assert (Hrest : In r rest).
  { destruct Hr as [<-|Hr]; [|exact Hr].
    rewrite (dict_get_key first k Hin) in Hk. discriminate. }
  split; [exact Hrest|]. split; [exact Hin|]. split; [exact Hk|].
  inversion Hshape as [d Hd Hr' | rows Hd Hr' | rows Hd Hr']; subst;
    try discriminate;
    unfold insert_values; cbn [py_getitem0 map res_bind py_iter];
    change (PyDict first :: map PyDict rest)
      with (map PyDict (first :: rest));
    now rewrite E.
Qed.

Lemma dict_get_restrict (cols : list string) (row : dict) (c : string) :
  In c cols -> dict_get (restrict cols row) c = dict_get row c.
Proof.
  intros Hin. induction row as [|[k v] row IH]; [reflexivity|].
  simpl. destruct (String.eqb k c) eqn:E.
  - apply String.eqb_eq in E. subst k.
    assert (Hex : existsb (String.eqb c) cols = true).
    { apply existsb_exists. exists c. split; [exact Hin|].
      apply String.eqb_refl. }
    rewrite Hex. simpl. now rewrite String.eqb_refl.
  - destruct (existsb (String.eqb k) cols); [|exact IH].
    simpl. now rewrite E.
Qed.

Lemma bound_agree (cols : list string) (r r' : dict) :
  (forall c, In c cols -> dict_get r' c = dict_get r c) ->
  bound cols r' = bound cols r /\ has_keys cols r' = has_keys cols r.
Proof.
  unfold bound, has_keys, has_key.
  induction cols as [|c cols IH]; intros H; [split; reflexivity|].
  simpl. rewrite (H c) by now left.
  destruct IH as [Hb Hk]; [intros c' Hc'; apply H; now right|].
  now rewrite Hb, Hk.
Qed.

Lemma restrict_rows (cols : list string) (rows : list dict) :
  map (bound cols) (map (restrict cols) rows) = map (bound cols) rows
  /\ forallb (has_keys cols) (map (restrict cols) rows)
     = forallb (has_keys cols) rows.
Proof.
  induction rows as [|r rows [IHb IHk]]; [split; reflexivity|].
  destruct (bound_agree cols r (restrict cols r)) as [Hb Hk].
  { intros c Hc. now apply dict_get_restrict. }
  simpl. now rewrite Hb, Hk, IHb, IHk.
Qed.

End InsertFacts.

Section InsertClaims.

Variable DB : Type.
Variable engine : string -> list pyval -> DB -> DB * reply.

(** C2.  A valid insert call -- a mapping, or a non-empty sequence of
    mappings that all have the first mapping's keys -- makes its [execute]
    calls one per row, in the order of the rows, and the parameters bound
    for a row are that row's values under the first row's keys, in the
    order of those keys.  The call returns exactly when each of these
    calls goes through (the parameters can be merged on the client and
    the engine accepts the statement in the state the rows before it have
    left), and it has then made exactly one call per row; a call that
    raises ends the loop. *)
Theorem insert_one_execution_per_row (t : string) (data : pyval)
    (first : dict) (rest : list dict) (w : world DB) :
  insert_data data (first :: rest) ->
  forallb (has_keys (keys first)) rest = true ->
  (exists k,
      k <= length (first :: rest)
      /\ log (fst (insert engine t data w))
         = (log w
            ++ map (fun row => (flat_insert t (keys first),
                                bound (keys first) row))
                 (firstn k (first :: rest)))%list)
  /\ (snd (insert engine t data w) = inr tt
      <-> all_accepted engine (flat_insert t (keys first))
            (map (bound (keys first)) (first :: rest)) (db w) = true)
  /\ (snd (insert engine t data w) = inr tt ->
      log (fst (insert engine t data w))
      = (log w
         ++ map (fun row => (flat_insert t (keys first),
                             bound (keys first) row))
              (first :: rest))%list
      /\ length (log (fst (insert engine t data w)))
         = length (log w) + length (first :: rest))
  /\ Forall (fun row =>
               Forall2 (fun c v => dict_get row c = Some v)
                 (keys first) (bound (keys first) row))
       (first :: rest).
Proof.
  intros Hshape Hkeys.
  rewrite (insert_run DB engine t data _ _ w
             (insert_values_ok _ _ _ Hshape Hkeys)).
  split; [|split; [apply execute_each_returns|split]].
  - destruct (execute_each_sends_prefix DB engine
                (flat_insert t (keys first))
                (map (bound (keys first)) (first :: rest)) w)
      as (k & Hk & Hl).
    exists k. rewrite length_map in Hk. split; [exact Hk|].
    now rewrite Hl, firstn_map, map_map.
  - intros Hret. apply execute_each_returns in Hret.
    destruct (execute_each_accepted DB engine _ _ w Hret) as (_ & Hl & _).
    rewrite Hl, map_map. split; [reflexivity|].
    now rewrite length_app, length_map.
  - apply Forall_forall. intros row Hin. apply bound_spec.
    destruct Hin as [<-|Hin]; [apply has_keys_self|].
    rewrite forallb_forall in Hkeys. now apply Hkeys.
Qed.

(** C9.  In a bulk insert whose later rows have all of the first row's
    keys and other keys besides, the other keys are never looked at: the
    rows are indexed without error by the first row's keys only, the run
    is the very run obtained with the other keys removed from every later
    row, and when the [execute] calls go through (as in C2) the insert
    returns, having bound for each row its values under the first row's
    keys. *)
Theorem insert_ignores_extra_keys (t : string) (first : dict)
    (rest : list dict) (w : world DB) :
  forallb (has_keys (keys first)) rest = true ->
  insert_values (PyList (map PyDict (first :: rest)))
  = inr (keys first,
         map (fun row => bound (keys first) (restrict (keys first) row))
           (first :: rest))
  /\ insert engine t (PyList (map PyDict (first :: rest))) w
     = insert engine t
         (PyList (map PyDict (first :: map (restrict (keys first)) rest))) w
  /\ (all_accepted engine (flat_insert t (keys first))
        (map (bound (keys first)) (first :: rest)) (db w) = true ->
      snd (insert engine t (PyList (map PyDict (first :: rest))) w) = inr tt
      /\ map snd
           (skipn (length (log w))
              (log (fst (insert engine t
                           (PyList (map PyDict (first :: rest))) w))))
         = map (fun row => bound (keys first) (restrict (keys first) row))
             (first :: rest)).
Proof.
  intros Hkeys.
  destruct (restrict_rows (keys first) rest) as [Hb Hk].
  destruct (restrict_rows (keys first) (first :: rest)) as [Hb' _].
  rewrite map_map in Hb'.
  assert (Hkeys' : forallb (has_keys (keys first))
                     (map (restrict (keys first)) rest) = true)
    by now rewrite Hk.
  pose proof (insert_values_ok _ _ _
                (list_of_mappings (first :: rest)) Hkeys) as Hv.
  split; [now rewrite Hb'|]. split.
  - rewrite (insert_run DB engine t _ _ _ w Hv).
    rewrite (insert_run DB engine t _ _ _ w
               (insert_values_ok _ _ _
                  (list_of_mappings
                     (first :: map (restrict (keys first)) rest)) Hkeys')).
    cbn [map]. now rewrite Hb.
  - intros Hacc. rewrite (insert_run DB engine t _ _ _ w Hv).
    destruct (execute_each_accepted DB engine _ _ w Hacc) as (Hr & Hl & _).
    split; [exact Hr|].
    rewrite Hl, skipn_app, skipn_all, Nat.sub_diag. cbn [skipn app].
    rewrite !map_map. cbn [snd]. now rewrite Hb'.
Qed.

(** C4 (amended).  In a bulk insert in which some row lacks one of the
    first row's keys, [insert] raises the [KeyError] of a key that a row
    lacks, before anything is executed: the connection is left as it
    was. *)
Theorem insert_missing_key_raises_before_execute (t : string)
    (data : pyval) (first : dict) (rest : list dict) (w : world DB) :
  insert_data data (first :: rest) ->
  forallb (has_keys (keys first)) rest = false ->
  exists r k,
    In r rest /\ In k (keys first) /\ has_key r k = false
    /\ insert engine t data w = (w, inl (KeyError k)).
Proof.
  intros Hshape Hkeys.
  destruct (insert_values_missing _ _ _ Hshape Hkeys)
    as (r & k & Hr & Hin & Hk & E).
  exists r, k. repeat split; try assumption. now apply insert_raises.
Qed.

(** When [data] is not a mapping and [data[0]] does not exist or is not
    a mapping, [insert] raises and executes nothing: the connection is
    left as it was.  When [data[0]] exists, the exception is the
    [ValueError] of the validation. *)
Lemma insert_rejects_without_executing (t : string) (data : pyval)
    (w : world DB) :
  first_is_mapping data = false ->
  exists e,
    insert engine t data w = (w, inl e)
    /\ (forall x, py_getitem0 data = inr x -> e = ValueError insert_error).
Proof.
  intros H.
  assert (E : insert_values data
              = match py_getitem0 data with
                | inl e => inl e
                | inr _ => inl (ValueError insert_error)
                end).
  { unfold first_is_mapping in H. unfold insert_values.
    destruct data; try discriminate;
      destruct (py_getitem0 _) as [e|[]]; try discriminate; reflexivity. }
  destruct (py_getitem0 data) as [e|x] eqn:E0.
  - exists e. split; [now apply insert_raises|]. discriminate.
  - exists (ValueError insert_error). split; [now apply insert_raises|].
    reflexivity.
Qed.

End InsertClaims.

(** The two rows of the example, the second with its keys in the other
    order. *)
Lemma insert_one_execution_per_row_witness :
  forallb (has_keys (keys item1)) [item2] = true
  /\ snd (insert accepting_engine "test_table"
            (PyList (map PyDict [item1; item2])) (fresh []))
     = inr tt
  /\ log (fst (insert accepting_engine "test_table"
                 (PyList (map PyDict [item1; item2])) (fresh [])))
     = [(flat_insert "test_table" ["name"; "value"],
         [PyStr "Item 1"; PyInt 10]);
        (flat_insert "test_table" ["name"; "value"],
         [PyStr "Item 2"; PyInt 20])].
Proof.
  split; [reflexivity|].
  destruct (insert_one_execution_per_row (list call) accepting_engine
              "test_table" (PyList (map PyDict [item1; item2]))
              item1 [item2] (fresh [])
              (list_of_mappings [item1; item2]) eq_refl)
    as (_ & Hiff & Hall & _).
  split; [exact (proj2 Hiff eq_refl)|].
  exact (proj1 (Hall (proj2 Hiff eq_refl))).
Defined.

(** A second row with a key the first row does not have. *)
Lemma insert_ignores_extra_keys_witness :
  forallb (has_keys (keys row_a)) [row_ab] = true
  /\ snd (insert accepting_engine "t"
            (PyList (map PyDict [row_a; row_ab])) (fresh []))
     = inr tt
  /\ map snd
       (log (fst (insert accepting_engine "t"
                    (PyList (map PyDict [row_a; row_ab])) (fresh []))))
     = [[PyInt 1]; [PyInt 2]].
Proof.
  split; [reflexivity|].
  destruct (insert_ignores_extra_keys (list call) accepting_engine
              "t" row_a [row_ab] (fresh []) eq_refl)
    as (_ & _ & H).
  destruct (H eq_refl) as (Hr & Hl).
  split; [exact Hr|exact Hl].
Defined.

(** C4, as stated, fails: rows with different key sets are not rejected
    when the later row has the first row's keys; both statements are
    executed. *)
Lemma insert_extra_key_not_rejected :
  same_keys row_a row_ab = false
  /\ insert accepting_engine "t" (PyList [PyDict row_a; PyDict row_ab])
       (fresh [])
     = ({| db := [(flat_insert "t" ["a"], [PyInt 1]);
                  (flat_insert "t" ["a"], [PyInt 2])];
           log := [(flat_insert "t" ["a"], [PyInt 1]);
                   (flat_insert "t" ["a"], [PyInt 2])];
           out := [] |}, inr tt).
Proof. split; reflexivity. Qed.

(** A second row without the key [b] of the first row. *)
Lemma insert_missing_key_raises_before_execute_witness :
  forallb (has_keys (keys row_ab)) [row_a] = false
  /\ exists r k,
       In r [row_a] /\ In k ["a"; "b"] /\ has_key r k = false
       /\ insert accepting_engine "t"
            (PyList (map PyDict [row_ab; row_a])) (fresh [])
          = (fresh [], inl (KeyError k)).
Proof.
  split; [reflexivity|].
  exact (insert_missing_key_raises_before_execute (list call)
           accepting_engine "t" (PyList (map PyDict [row_ab; row_a]))
           row_ab [row_a] (fresh [])
           (list_of_mappings [row_ab; row_a]) eq_refl).
Defined.

(** C5.  The claim fails on the code.  The validation that raises
    [ValueError] comes after [data[0]] has been evaluated and looks at the
    first element only: an empty sequence raises [IndexError] and a number
    [TypeError] instead of the validation error, and a sequence that
    starts with an empty mapping is not rejected at all, one statement is
    executed for each of its elements. *)
Theorem insert_empty_sequence_index_error :
  first_is_mapping (PyList []) = false
  /\ insert accepting_engine "t" (PyList []) (fresh [])
     = (fresh [], inl IndexError)
  /\ first_is_mapping (PyInt 3) = false
  /\ insert accepting_engine "t" (PyInt 3) (fresh [])
     = (fresh [], inl TypeError)
  /\ (forall msg, IndexError <> ValueError msg)
  /\ (forall msg, TypeError <> ValueError msg)
  /\ insert accepting_engine "t"
       (PyList [PyDict []; PyInt 5; PyStr "x"]) (fresh [])
     = ({| db := [(flat_insert "t" [], []); (flat_insert "t" [], []);
                  (flat_insert "t" [], [])];
           log := [(flat_insert "t" [], []); (flat_insert "t" [], []);
                   (flat_insert "t" [], [])];
           out := [] |}, inr tt).
Proof. repeat split; discriminate. Qed.

(** ** Names in the generated statements *)

Section Names.

(** A fragment that is one fixed string is in the fixed list. *)
Ltac fixed_fragment := intros s [<-|[]]; simpl; tauto.

Lemma identifiers_intersperse (sep : string) (l : list Composable) :
  flat_map identifiers (intersperse (SQL sep) l) = flat_map identifiers l.
Proof.
  induction l as [|x l IH]; [reflexivity|].
  destruct l as [|y l]; [reflexivity|].
  change (intersperse (SQL sep) (x :: y :: l))
    with (x :: SQL sep :: intersperse (SQL sep) (y :: l)).
  cbn [flat_map]. rewrite IH. reflexivity.
Qed.

Lemma raw_fragments_intersperse (sep : string) (l : list Composable) :
  incl (flat_map raw_fragments (intersperse (SQL sep) l))
       (sep :: flat_map raw_fragments l).
Proof.
  induction l as [|x l IH]; [apply incl_nil_l|].
  destruct l as [|y l]; [apply incl_tl, incl_refl|].
  change (intersperse (SQL sep) (x :: y :: l))
    with (x :: SQL sep :: intersperse (SQL sep) (y :: l)).
  cbn [flat_map raw_fragments]. intros s Hs.
  apply in_app_or in Hs as [Hs|[<-|Hs]].
  - right. apply in_or_app. now left.
  - now left.
  - apply IH in Hs as [<-|Hs]; [now left|].
    right. apply in_or_app. now right.
Qed.

Lemma identifiers_idents (sep : string) (cols : list string) :
  identifiers (join sep (map Identifier cols)) = cols.
Proof.
  unfold join. cbn [identifiers]. rewrite identifiers_intersperse.
  induction cols as [|c cols IH]; [reflexivity|].
  simpl. now rewrite IH.
Qed.

Lemma raw_fragments_idents (sep : string) (cols : list string) :
  incl (raw_fragments (join sep (map Identifier cols))) [sep].
Proof.
  unfold join. cbn [raw_fragments].
  eapply incl_tran; [apply raw_fragments_intersperse|].
  replace (flat_map raw_fragments (map Identifier cols)) with (@nil string).
  - apply incl_refl.
  - induction cols as [|c cols IH]; [reflexivity|exact IH].
Qed.

Lemma identifiers_equals_placeholders (ks : list string) :
  flat_map identifiers (map equals_placeholder ks) = ks.
Proof.
  induction ks as [|k ks IH]; [reflexivity|].
  simpl. now rewrite IH.
Qed.

Lemma identifiers_conditions (sep : string) (ks : list string) :
  identifiers (join sep (map equals_placeholder ks)) = ks.
Proof.
  unfold join. cbn [identifiers].
  now rewrite identifiers_intersperse, identifiers_equals_placeholders.
Qed.

Lemma raw_fragments_conditions (sep : string) (ks : list string) :
  incl (raw_fragments (join sep (map equals_placeholder ks))) [sep; "=%s"].
Proof.
  unfold join. cbn [raw_fragments].
  eapply incl_tran; [apply raw_fragments_intersperse|].
  apply incl_cons; [now left|].
  induction ks as [|k ks IH]; [apply incl_nil_l|].
  simpl. apply incl_cons; [right; now left|exact IH].
Qed.

Lemma identifiers_placeholders (sep : string) (n : nat) :
  identifiers (join sep (repeat Placeholder n)) = []
  /\ incl (raw_fragments (join sep (repeat Placeholder n))) [sep].
Proof.
  unfold join. cbn [identifiers raw_fragments]. split.
  - rewrite identifiers_intersperse.
    induction n as [|n IH]; [reflexivity|exact IH].
  - eapply incl_tran; [apply raw_fragments_intersperse|].
    replace (flat_map raw_fragments (repeat Placeholder n))
      with (@nil string); [apply incl_refl|].
    induction n as [|n IH]; [reflexivity|exact IH].
Qed.

(** In the statement of [insert] every name supplied by the caller is an
    [Identifier], and the raw SQL around them is fixed text. *)
Lemma insert_sql_names (t : string) (cols : list string) :
  exists q,
    insert_sql t cols = inr q
    /\ identifiers q = t :: cols
    /\ incl (raw_fragments q)
         ["INSERT INTO "; " ("; ", "; ") VALUES ("; ")"].
Proof.
  eexists. split; [apply insert_sql_eq|]. split.
  - cbn [identifiers flat_map]. rewrite identifiers_idents.
    rewrite (proj1 (identifiers_placeholders ", " (length cols))).
    cbn [app]. now rewrite app_nil_r.
  - cbn [raw_fragments flat_map].
    repeat apply incl_app;
      try (intros s [<-|[]]; simpl; tauto);
      try apply incl_nil_l.
    + eapply incl_tran; [apply raw_fragments_idents|].
      intros s [<-|[]]; simpl; tauto.
    + eapply incl_tran; [apply identifiers_placeholders|].
      intros s [<-|[]]; simpl; tauto.
Qed.

(** The same holds in [update], [delete], [select] and [drop_table]. *)
Lemma update_query_names (t : string) (data where_ : dict) :
  exists q p,
    update_query t data where_ = inr (q, p)
    /\ identifiers q = (t :: keys data ++ keys where_)%list
    /\ incl (raw_fragments q)
         ["UPDATE "; " SET "; ", "; "=%s"; " WHERE "; " AND "].
Proof.
  do 2 eexists. split; [apply update_query_eq|]. split.
  - cbn [identifiers flat_map]. rewrite !identifiers_conditions.
    cbn [app]. now rewrite app_nil_r.
  - cbn [raw_fragments flat_map].
    repeat apply incl_app; try fixed_fragment; try apply incl_nil_l;
      (eapply incl_tran; [apply raw_fragments_conditions|]);
      intros s [<-|[<-|[]]]; simpl; tauto.
Qed.

Lemma delete_query_names (t : string) (where_ : dict) :
  exists q p,
    delete_query t where_ = inr (q, p)
    /\ identifiers q = t :: keys where_
    /\ incl (raw_fragments q) ["DELETE FROM "; " WHERE "; " AND "; "=%s"].
Proof.
  do 2 eexists. split; [apply delete_query_eq|]. split.
  - cbn [identifiers flat_map]. rewrite identifiers_conditions.
    cbn [app]. now rewrite app_nil_r.
  - cbn [raw_fragments flat_map].
    repeat apply incl_app; try fixed_fragment; try apply incl_nil_l;
      (eapply incl_tran; [apply raw_fragments_conditions|]);
      intros s [<-|[<-|[]]]; simpl; tauto.
Qed.

Lemma select_query_names (t : string) (cols : list string)
    (where_ : option dict) :
  exists q p,
    select_query t cols where_ = inr (q, p)
    /\ identifiers q = (cols ++ t :: where_keys where_)%list
    /\ incl (raw_fragments q)
         ["SELECT "; ", "; " FROM "; " WHERE "; " AND "; "=%s"].
Proof.
  assert (Hall : forall w, where_keys w = [] ->
    exists q p,
      select_query t cols w = inr (q, p)
      /\ identifiers q = (cols ++ t :: where_keys w)%list
      /\ incl (raw_fragments q)
           ["SELECT "; ", "; " FROM "; " WHERE "; " AND "; "=%s"]).
  { intros w Hw. do 2 eexists.
    split; [now apply select_query_all|]. rewrite Hw. split.
    - cbn [identifiers flat_map]. rewrite identifiers_idents.
      cbn [app]. reflexivity.
    - cbn [raw_fragments flat_map].
      repeat apply incl_app; try fixed_fragment; try apply incl_nil_l.
      eapply incl_tran; [apply raw_fragments_idents|]. fixed_fragment. }
  destruct where_ as [[|kv d]|]; [now apply Hall| |now apply Hall].
  do 2 eexists. split; [apply select_query_where|]. split.
  - cbn [identifiers]. rewrite flat_map_app.
    cbn [flat_map identifiers]. rewrite identifiers_idents.
    rewrite identifiers_intersperse, identifiers_equals_placeholders.
    cbn [app where_keys]. now rewrite <- app_assoc.
  - cbn [raw_fragments]. rewrite flat_map_app.
    cbn [flat_map raw_fragments].
    repeat apply incl_app; try fixed_fragment; try apply incl_nil_l.
    + eapply incl_tran; [apply raw_fragments_idents|]. fixed_fragment.
    + change (flat_map raw_fragments
                (intersperse (SQL " AND ")
                   (map equals_placeholder (keys (kv :: d)))))
        with (raw_fragments
                (join " AND " (map equals_placeholder (keys (kv :: d))))).
      eapply incl_tran; [apply raw_fragments_conditions|].
      intros s [<-|[<-|[]]]; simpl; tauto.
Qed.

Lemma drop_table_query_names (t : string) :
  exists q,
    drop_table_query t = inr q
    /\ identifiers q = [t]
    /\ raw_fragments q = ["DROP TABLE IF EXISTS "].
Proof.
  eexists. split; [apply drop_table_query_eq|]. split; reflexivity.
Qed.

(** In the statement of [create_table] only the table name is an
    [Identifier]; the column names are part of a raw fragment, with the
    type declarations. *)
Lemma create_table_query_names (t : string)
    (columns : list (string * string)) :
  exists q,
    create_table_query t columns = inr q
    /\ identifiers q = [t]
    /\ raw_fragments q
       = ["CREATE TABLE IF NOT EXISTS "; " (";
          String.concat ", "
            (map (fun '(name, ctype) => name ++ " " ++ ctype) columns);
          ")"].
Proof.
  eexists. split; [apply create_table_query_eq|]. split; reflexivity.
Qed.

End Names.

(** C1.  The claim fails in [create_table]: a column name is not passed
    through the identifier-escaping primitive, it is inserted verbatim in
    the same raw fragment as its type declaration.  [insert] given the
    same column name quotes it. *)
Theorem create_table_column_name_unquoted :
  create_table_query "t" [("Name", "TEXT")]
  = inr (Composed
           [SQL "CREATE TABLE IF NOT EXISTS "; Identifier "t"; SQL " (";
            SQL "Name TEXT"; SQL ")"])
  /\ (exists q,
         create_table_query "t" [("Name", "TEXT")] = inr q
         /\ identifiers q = ["t"]
         /\ In "Name TEXT" (raw_fragments q)
         /\ as_string q
            = "CREATE TABLE IF NOT EXISTS " ++ quote_ident "t"
              ++ " (Name TEXT)")
  /\ (exists q,
         insert_sql "t" ["Name"] = inr q
         /\ identifiers q = ["t"; "Name"]
         /\ as_string q
            = "INSERT INTO " ++ quote_ident "t" ++ " ("
              ++ quote_ident "Name" ++ ") VALUES (%s)").
Proof.
  split; [reflexivity|]. split.
  - eexists. split; [reflexivity|]. repeat split. simpl. tauto.
  - eexists. split; [reflexivity|]. split; reflexivity.
Qed.

(** What a column name can then carry into the statement. *)
Example create_table_column_name_is_sql :
  exists q,
    create_table_query "t" [("x INTEGER); DROP TABLE users; --", "TEXT")]
    = inr q
    /\ as_string q
       = "CREATE TABLE IF NOT EXISTS " ++ quote_ident "t"
         ++ " (x INTEGER); DROP TABLE users; -- TEXT)".
Proof. eexists. split; reflexivity. Qed.

(** ** Update and delete *)

Section UpdateDelete.

Variable DB : Type.
Variable engine : string -> list pyval -> DB -> DB * reply.

(** C3.  [update] makes one [execute] call; its text is
    [UPDATE <table> SET col=%s, ... WHERE col=%s AND ...] over the keys of
    the two mappings, and its parameters are the values of the data
    mapping followed by the values of the condition mapping, each in the
    mapping's own order. *)
Theorem update_statement_and_parameters (t : string) (data where_ : dict)
    (w : world DB) :
  log (fst (update engine t data where_ w))
  = (log w
     ++ [(("UPDATE " ++ quote_ident t
           ++ " SET " ++ String.concat ", " (map condition (keys data))
           ++ " WHERE "
           ++ String.concat " AND " (map condition (keys where_)))%string,
          values data ++ values where_)])%list.
Proof.
  rewrite update_run, execute_only. reflexivity.
Qed.

End UpdateDelete.

(** ** Update and delete with an empty condition *)

Section EmptyCondition.

Variable DB : Type.
Variable engine : string -> list pyval -> DB -> DB * reply.

Lemma ends_with_append (a suffix : string) :
  ends_with suffix (a ++ suffix) = true.
Proof.
  induction a as [|c a IH]; simpl.
  - destruct suffix; simpl; [reflexivity|].
    now rewrite Ascii.eqb_refl, String.eqb_refl.
  - rewrite IH. apply orb_true_r.
Qed.

Lemma flat_update_empty (t : string) (dcols : list string) :
  flat_update t dcols []
  = ("UPDATE " ++ quote_ident t
     ++ " SET " ++ String.concat ", " (map condition dcols)) ++ " WHERE ".
Proof.
  unfold flat_update. cbn [map String.concat].
  rewrite !append_assoc. reflexivity.
Qed.

Lemma flat_delete_empty (t : string) :
  flat_delete t [] = ("DELETE FROM " ++ quote_ident t) ++ " WHERE ".
Proof.
  unfold flat_delete. cbn [map String.concat].
  rewrite !append_assoc. reflexivity.
Qed.

Lemma append_longer (a b : string) :
  b <> EmptyString -> (a ++ b)%string <> a.
Proof.
  intros Hb. induction a as [|c a IH]; simpl.
  - exact Hb.
  - intros E. injection E as E. now apply IH.
Qed.

(** C6.  The claim fails on the code.  With an empty condition mapping
    [update] and [delete] keep the keyword WHERE and put nothing after it:
    whatever the engine, the one statement they hand to [execute] ends
    after WHERE.  It is not the statement without a condition, the one
    that reaches every row.  [select], given the same empty mapping,
    leaves the keyword out. *)
Theorem empty_condition_statement_ends_after_where (t : string)
    (data : dict) (cols : list string) (w : world DB) :
  log (fst (update engine t data [] w))
  = (log w
     ++ [((("UPDATE " ++ quote_ident t ++ " SET "
            ++ String.concat ", " (map condition (keys data)))
           ++ " WHERE ")%string,
          values data)])%list
  /\ log (fst (delete engine t [] w))
     = (log w
        ++ [((("DELETE FROM " ++ quote_ident t) ++ " WHERE ")%string,
             [])])%list
  /\ ends_with " WHERE " (flat_update t (keys data) []) = true
  /\ ends_with " WHERE " (flat_delete t []) = true
  /\ flat_update t (keys data) []
     <> ("UPDATE " ++ quote_ident t ++ " SET "
         ++ String.concat ", " (map condition (keys data)))%string
  /\ flat_delete t [] <> ("DELETE FROM " ++ quote_ident t)%string
  /\ log (fst (select engine t cols (Some []) w))
     = (log w
        ++ [(("SELECT " ++ String.concat ", " (map quote_ident cols)
              ++ " FROM " ++ quote_ident t)%string, [])])%list.
Proof.
  rewrite update_run, delete_run, select_run, !execute_only.
  cbn [keys values map where_keys where_values fst log parameters].
  rewrite app_nil_r, flat_update_empty, flat_delete_empty.
  repeat split; try apply ends_with_append;
    try (apply append_longer; discriminate).
  assert (Hs : flat_select t cols []
               = ("SELECT " ++ String.concat ", " (map quote_ident cols)
                  ++ " FROM " ++ quote_ident t)%string).
  { unfold flat_select, flat_where.
    assert (E : forall s : string, (s ++ EmptyString)%string = s).
    { intros s. induction s as [|c s IH]; simpl; [|rewrite IH]; reflexivity. }
    now rewrite E. }
  rewrite Hs. unfold bind, lift. rewrite execute_eq. cbn [parameters].
  destruct (call_error engine _ _ (db w)); [reflexivity|].
  destruct (fetchall _); reflexivity.
Qed.

End EmptyCondition.

(** [delete] and [update] with an empty condition on the engine that
    checks the WHERE clause: the statement is rejected and no row is
    changed. *)
Example empty_condition_is_not_whole_table :
  delete checking_engine "test_table" [] (fresh [])
  = ({| db := []; log := [(flat_delete "test_table" [], [])]; out := [] |},
     inl (DatabaseError syntax_error))
  /\ update checking_engine "test_table" [("value", PyInt 99)] []
       (fresh [])
     = ({| db := [];
           log := [(flat_update "test_table" ["value"] [], [PyInt 99])];
           out := [] |},
        inl (DatabaseError syntax_error))
  /\ ends_with " WHERE " (flat_delete "test_table" []) = true
  /\ ends_with " WHERE " (flat_update "test_table" ["value"] []) = true.
Proof. repeat split. Qed.

(** ** Table creation *)

Section TableCreation.

Variable DB : Type.
Variable engine : string -> list pyval -> DB -> DB * reply.

Lemma create_table_query_text (t : string)
    (columns : list (string * string)) :
  exists q,
    create_table_query t columns = inr q
    /\ as_string q = flat_create t columns.
Proof.
  eexists. split; [apply create_table_query_eq|]. reflexivity.
Qed.

Lemma execute_accepted (q : string) (vars : option (list pyval))
    (w : world DB) (d' : DB) (r : reply) :
  merge q vars = inr tt ->
  engine q (parameters vars) (db w) = (d', r) ->
  accepted r = true ->
  execute engine q vars w
  = ({| db := d'; log := (log w ++ [(q, parameters vars)])%list;
        out := out w |},
     inr match r with
         | Rows rs => Some rs
         | _ => None
         end).
Proof.
  intros Hm H Hacc. unfold execute. rewrite Hm, H.
  destruct r; [reflexivity|reflexivity|discriminate].
Qed.

Lemma execute_raises (q : string) (vars : option (list pyval))
    (w : world DB) (e : exn) :
  merge q vars = inl e ->
  execute engine q vars w
  = ({| db := db w; log := (log w ++ [(q, parameters vars)])%list;
        out := out w |}, inl e).
Proof. intros Hm. unfold execute. now rewrite Hm. Qed.

(** The two catalog queries have one placeholder, for the table name: the
    client-side step fails only on a name that contains NUL. *)
Lemma catalog_queries_merge (t : string) :
  merge exists_query (Some [PyStr t])
  = (if has_nul t then inl (ValueError nul_error) else inr tt)
  /\ merge count_query (Some [PyStr t])
     = (if has_nul t then inl (ValueError nul_error) else inr tt).
Proof.
  split; cbv -[has_nul]; destruct (has_nul t); reflexivity.
Qed.

(** C7 (amended).  After its CREATE TABLE IF NOT EXISTS statement,
    [create_table] prints exactly one of three reports, decided by the
    catalog: when the catalog does not list the table, that creation
    failed; when it lists the table, that the table is new if the
    catalog's column count equals the number of requested columns and
    that it already existed otherwise.  The table name is a parameter of
    the catalog queries: a name that contains NUL cannot be written as a
    string literal, the first catalog query then raises [ValueError] on
    the client and nothing is printed. *)
Theorem create_table_reports (t : string)
    (columns : list (string * string)) (w : world DB)
    (d1 d2 : DB) (r1 : reply) (listed : pyval) (row1 : list pyval)
    (rows1 : list (list pyval)) :
  engine (flat_create t columns) [] (db w) = (d1, r1) ->
  accepted r1 = true ->
  engine exists_query [PyStr t] d1 = (d2, Rows ((listed :: row1) :: rows1)) ->
  (has_nul t = false ->
   (py_truthy listed = false ->
    create_table engine t columns w
    = ({| db := d2;
          log := (log w ++ [(flat_create t columns, []);
                            (exists_query, [PyStr t])])%list;
          out := (out w ++ [report t CreationFailed])%list |},
       inr tt))
   /\ (py_truthy listed = true ->
       forall (d3 : DB) (count : pyval) (row2 : list pyval)
              (rows2 : list (list pyval)),
         engine count_query [PyStr t] d2
         = (d3, Rows ((count :: row2) :: rows2)) ->
         create_table engine t columns w
         = ({| db := d3;
               log := (log w ++ [(flat_create t columns, []);
                                 (exists_query, [PyStr t]);
                                 (count_query, [PyStr t])])%list;
               out := (out w
                       ++ [report t
                             (if py_eq_len count (length columns)
                              then NewlyCreated
                              else AlreadyExisted)])%list |},
            inr tt)))
  /\ (has_nul t = true ->
      snd (create_table engine t columns w) = inl (ValueError nul_error)
      /\ out (fst (create_table engine t columns w)) = out w).
Proof.
  intros H1 Hacc H2.
  destruct (create_table_query_text t columns) as (q & Hq & Ht).
  destruct (catalog_queries_merge t) as (Hm1 & Hm2).
  assert (Hstart :
    create_table engine t columns w
    = (exists_ <- (cur <- execute engine exists_query (Some [PyStr t]) ;;
                   row <- lift (fetchone cur) ;;
                   lift (py_getitem0 row)) ;;
       if py_truthy exists_ then
         cur <- execute engine count_query (Some [PyStr t]) ;;
         row <- lift (fetchone cur) ;;
         col_count <- lift (py_getitem0 row) ;;
         if py_eq_len col_count (length columns) then
           print (report t NewlyCreated)
         else print (report t AlreadyExisted)
       else print (report t CreationFailed))
        {| db := d1; log := (log w ++ [(flat_create t columns, [])])%list;
           out := out w |}).
  { unfold create_table, bind at 1, lift at 1. rewrite Hq. cbv beta iota.
    rewrite Ht. unfold bind at 1.
    rewrite (execute_accepted _ None w d1 r1 eq_refl H1 Hacc).
    unfold bind, lift. cbv beta iota. cbn [parameters].
    destruct (execute engine exists_query (Some [PyStr t]) _)
      as [w' [e|cur]]; [reflexivity|].
    destruct (fetchone cur) as [e|row]; [reflexivity|].
    destruct (py_getitem0 row) as [e|x]; reflexivity. }
  split.
  - intros Hnul. rewrite Hnul in Hm1, Hm2.
    assert (Hlisted :
      create_table engine t columns w
      = (if py_truthy listed then
           cur <- execute engine count_query (Some [PyStr t]) ;;
           row <- lift (fetchone cur) ;;
           col_count <- lift (py_getitem0 row) ;;
           if py_eq_len col_count (length columns) then
             print (report t NewlyCreated)
           else print (report t AlreadyExisted)
         else print (report t CreationFailed))
          {| db := d2;
             log := (log w ++ [(flat_create t columns, []);
                               (exists_query, [PyStr t])])%list;
             out := out w |}).
    { rewrite Hstart. unfold bind at 1 2.
      match goal with
      | |- context [execute engine exists_query (Some [PyStr t]) ?w1] =>
          rewrite (execute_accepted exists_query (Some [PyStr t]) w1 d2 _
                     Hm1 H2 eq_refl)
      end.
      unfold bind at 1, lift at 1. cbn [fetchone].
      unfold bind at 1, lift at 1. cbn [py_getitem0].
      cbv beta iota. cbn [log out parameters]. now rewrite <- app_assoc. }
    rewrite Hlisted. clear Hstart Hlisted. split.
    + intros Hno. rewrite Hno. unfold print. reflexivity.
    + intros Hyes d3 count row2 rows2 H3. rewrite Hyes.
      unfold bind at 1.
      match goal with
      | |- context [execute engine count_query (Some [PyStr t]) ?w2] =>
          rewrite (execute_accepted count_query (Some [PyStr t]) w2 d3 _
                     Hm2 H3 eq_refl)
      end.
      unfold bind, lift. cbn [fetchone py_getitem0]. cbv beta iota.
      destruct (py_eq_len count (length columns));
        unfold print; cbn [db log out parameters];
        now rewrite <- !app_assoc.
  - intros Hnul. rewrite Hnul in Hm1.
    assert (E : create_table engine t columns w
                = ({| db := d1;
                      log := ((log w ++ [(flat_create t columns, [])])
                              ++ [(exists_query, [PyStr t])])%list;
                      out := out w |}, inl (ValueError nul_error))).
    { rewrite Hstart. unfold bind at 1 2.
      match goal with
      | |- context [execute engine exists_query (Some [PyStr t]) ?w1] =>
          rewrite (execute_raises exists_query (Some [PyStr t]) w1 _ Hm1)
      end.
      reflexivity. }
    rewrite E. split; reflexivity.
Qed.

End TableCreation.

(** The table of the example, listed by the catalog with its three
    columns. *)
Lemma create_table_reports_witness :
  create_table (catalog_engine true 3) "test_table" test_columns (fresh [])
  = ({| db := [(flat_create "test_table" test_columns, [])];
        log := [(flat_create "test_table" test_columns, []);
                (exists_query, [PyStr "test_table"]);
                (count_query, [PyStr "test_table"])];
        out := [report "test_table" NewlyCreated] |},
     inr tt).
Proof.
  exact (proj2
           (proj1
              (create_table_reports (list call) (catalog_engine true 3)
                 "test_table" test_columns (fresh [])
                 [(flat_create "test_table" test_columns, [])]
                 [(flat_create "test_table" test_columns, [])]
                 Done (PyBool true) [] [] eq_refl eq_refl eq_refl)
              eq_refl)
           eq_refl
           [(flat_create "test_table" test_columns, [])]
           (PyInt 3) [] [] eq_refl).
Defined.

(** C7, as stated, fails: a column count that differs from the number of
    requested columns after an accepted statement is reported as "already
    exists"; the failure report is printed when the catalog does not list
    the table, and the column count is then not queried. *)
Lemma create_table_mismatch_is_already_exists :
  out (fst (create_table (catalog_engine true 2) "test_table" test_columns
              (fresh [])))
  = [report "test_table" AlreadyExisted]
  /\ snd (create_table (catalog_engine true 2) "test_table" test_columns
            (fresh []))
     = inr tt
  /\ report "test_table" AlreadyExisted <> report "test_table" CreationFailed
  /\ create_table (catalog_engine false 3) "test_table" test_columns
       (fresh [])
     = ({| db := [(flat_create "test_table" test_columns, [])];
           log := [(flat_create "test_table" test_columns, []);
                   (exists_query, [PyStr "test_table"])];
           out := [report "test_table" CreationFailed] |},
        inr tt).
Proof. repeat split. discriminate. Qed.

(** ** Select *)

Section Select.

Variable DB : Type.
Variable engine : string -> list pyval -> DB -> DB * reply.

(** C10.  [select] makes exactly one [execute] call; its statement is a
    SELECT over the quoted columns and table, with the condition's keys
    after WHERE when the condition is not empty; on an engine that does
    not change its state when it executes such a SELECT, the database is
    left as it was. *)
Theorem select_is_one_read_only_statement (t : string)
    (cols : list string) (where_ : option dict) (w : world DB) :
  (forall t' cols' wcols p d,
      fst (engine (flat_select t' cols' wcols) p d) = d) ->
  log (fst (select engine t cols where_ w))
  = (log w ++ [(flat_select t cols (where_keys where_),
                where_values where_)])%list
  /\ starts_with "SELECT " (flat_select t cols (where_keys where_)) = true
  /\ db (fst (select engine t cols where_ w)) = db w.
Proof.
  intros Hro. rewrite select_run. unfold bind, lift.
  destruct (execute_log DB engine
              (flat_select t cols (where_keys where_))
              (Some (where_values where_)) w) as (Hl & _ & Hd).
  assert (Hs : state_after engine (flat_select t cols (where_keys where_))
                 (Some (where_values where_)) (db w) = db w).
  { unfold state_after. destruct (merge _ _); [reflexivity|apply Hro]. }
  rewrite Hs in Hd. cbn [parameters] in Hl. revert Hl Hd.
  destruct (execute engine _ _ w) as [w' [e|cur]];
    cbn [fst]; intros Hl Hd;
    (split; [exact Hl|split; [reflexivity|exact Hd]]).
Qed.

End Select.

(** A select with a condition. *)
Lemma select_is_one_read_only_statement_witness :
  (forall t' cols' wcols p d,
      fst (reading_engine (flat_select t' cols' wcols) p d) = d)
  /\ log (fst (select reading_engine "test_table" ["name"; "value"]
                 (Some [("name", PyStr "Item 1")]) (fresh [])))
     = [(flat_select "test_table" ["name"; "value"] ["name"],
         [PyStr "Item 1"])]
  /\ db (fst (select reading_engine "test_table" ["name"; "value"]
                (Some [("name", PyStr "Item 1")]) (fresh [])))
     = [].
Proof.
  assert (H : forall t' cols' wcols p d,
             fst (reading_engine (flat_select t' cols' wcols) p d) = d)
    by reflexivity.
  split; [exact H|].
  destruct (select_is_one_read_only_statement (list call) reading_engine
              "test_table" ["name"; "value"]
              (Some [("name", PyStr "Item 1")]) (fresh []) H)
    as (Hl & _ & Hd).
  split; [exact Hl|exact Hd].
Defined.

(** ** Insert, then select *)

Section RoundTrip.

Variable DB : Type.
Variable engine : string -> list pyval -> DB -> DB * reply.

(** The rows of the table, as the engine state holds them. *)
Variable stored : DB -> list dict.







End RoundTrip.


(** * Further properties of the operations *)

(** ** Startup: the target database *)

Section Startup.

Variable DB : Type.
Variable engine : string -> list pyval -> DB -> DB * reply.

Lemma execute_fails (q : string) (vars : option (list pyval))
    (w : world DB) (d' : DB) (msg : string) :
  merge q vars = inr tt ->
  engine q (parameters vars) (db w) = (d', Fail msg) ->
  execute engine q vars w
  = ({| db := d'; log := (log w ++ [(q, parameters vars)])%list;
        out := out w |},
     inl (DatabaseError msg)).
Proof. intros Hm H. unfold execute. now rewrite Hm, H. Qed.

Lemma create_database_query_text (dbname : string) :
  exists q,
    create_database_query dbname = inr q
    /\ as_string q = "CREATE DATABASE " ++ quote_ident dbname
    /\ identifiers q = [dbname]
    /\ raw_fragments q = ["CREATE DATABASE "].
Proof. eexists. repeat split. Qed.

(** The catalog query has one placeholder, for the database name: the
    client-side step fails only on a name that contains NUL. *)
Lemma database_query_merge (dbname : string) :
  merge database_query (Some [PyStr dbname])
  = (if has_nul dbname then inl (ValueError nul_error) else inr tt).
Proof. cbv -[has_nul]. destruct (has_nul dbname); reflexivity. Qed.

(** What [_ensure_database] runs once the catalog has answered with no
    row. *)
Lemma ensure_database_absent (dbname : string) (w : world DB) (d1 : DB) :
  has_nul dbname = false ->
  engine database_query [PyStr dbname] (db w) = (d1, Rows []) ->
  _ensure_database engine dbname w
  = (_ <- execute engine ("CREATE DATABASE " ++ quote_ident dbname) None ;;
     print ("Database '" ++ dbname
            ++ "' did not exist. Created new database."))
      {| db := d1;
         log := (log w ++ [(database_query, [PyStr dbname])])%list;
         out := out w |}.
Proof.
  intros Hnul H. pose proof (database_query_merge dbname) as Hm.
  rewrite Hnul in Hm.
  unfold _ensure_database. unfold bind at 1.
  rewrite (execute_accepted DB engine _ _ w d1 _ Hm H eq_refl).
  reflexivity.
Qed.

(** A database name that contains NUL: the catalog query raises on the
    client, nothing is sent and nothing is reported. *)
Lemma ensure_database_nul (dbname : string) (w : world DB) :
  has_nul dbname = true ->
  _ensure_database engine dbname w
  = ({| db := db w;
        log := (log w ++ [(database_query, [PyStr dbname])])%list;
        out := out w |},
     inl (ValueError nul_error)).
Proof.
  intros Hnul. pose proof (database_query_merge dbname) as Hm.
  rewrite Hnul in Hm.
  unfold _ensure_database. unfold bind at 1.
  now rewrite (execute_raises DB engine _ _ w _ Hm).
Qed.

(** The startup check asks the catalog for the database by name, the name
    bound as a parameter.  When a row comes back, nothing else is sent and
    the database is reported as existing; when none comes back, one CREATE
    DATABASE statement follows, the name in it a quoted identifier, and
    the creation is reported.  A name that contains NUL cannot be bound:
    the catalog query raises [ValueError] on the client and nothing is
    sent. *)
Theorem ensure_database_creates_only_when_absent (dbname : string)
    (w : world DB) (d1 : DB) (rows : list (list pyval)) :
  engine database_query [PyStr dbname] (db w) = (d1, Rows rows) ->
  (has_nul dbname = false ->
   (forall x row rs,
       rows = (x :: row) :: rs ->
       _ensure_database engine dbname w
       = ({| db := d1;
             log := (log w ++ [(database_query, [PyStr dbname])])%list;
             out := (out w
                     ++ [("Database '" ++ dbname
                          ++ "' already exists.")%string])%list |},
          inr tt))
   /\ (rows = [] ->
       forall d2 r2,
         engine ("CREATE DATABASE " ++ quote_ident dbname) [] d1 = (d2, r2) ->
         accepted r2 = true ->
         _ensure_database engine dbname w
         = ({| db := d2;
               log := (log w
                       ++ [(database_query, [PyStr dbname]);
                           (("CREATE DATABASE " ++ quote_ident dbname)%string,
                            [])])%list;
               out := (out w
                       ++ [("Database '" ++ dbname
                            ++ "' did not exist. Created new database."
                           )%string])%list |},
            inr tt)))
  /\ (has_nul dbname = true ->
      _ensure_database engine dbname w
      = ({| db := db w;
            log := (log w ++ [(database_query, [PyStr dbname])])%list;
            out := out w |},
         inl (ValueError nul_error))).
Proof.
  intros H. split; [|apply ensure_database_nul].
  intros Hnul. pose proof (database_query_merge dbname) as Hm.
  rewrite Hnul in Hm. split.
  - intros x row rs ->. unfold _ensure_database. unfold bind at 1.
    rewrite (execute_accepted DB engine _ _ w d1 _ Hm H eq_refl).
    reflexivity.
  - intros -> d2 r2 H2 Hacc. rewrite (ensure_database_absent _ _ _ Hnul H).
    unfold bind.
    match goal with
    | |- context [execute engine ?q None ?w1] =>
        rewrite (execute_accepted DB engine q None w1 d2 r2 eq_refl H2 Hacc)
    end.
    unfold print. cbn [db log out parameters]. now rewrite <- app_assoc.
Qed.

(** When the catalog has no row for the database and the engine rejects
    the CREATE DATABASE statement -- another client may have created the
    database in between -- the engine's error is raised and nothing is
    reported.  A name that contains NUL does not get that far: the
    catalog query raises [ValueError] on the client. *)
Theorem ensure_database_create_rejected (dbname msg : string)
    (w : world DB) (d1 d2 : DB) :
  engine database_query [PyStr dbname] (db w) = (d1, Rows []) ->
  engine ("CREATE DATABASE " ++ quote_ident dbname) [] d1 = (d2, Fail msg) ->
  (has_nul dbname = false ->
   _ensure_database engine dbname w
   = ({| db := d2;
         log := (log w
                 ++ [(database_query, [PyStr dbname]);
                     (("CREATE DATABASE " ++ quote_ident dbname)%string,
                      [])])%list;
         out := out w |},
      inl (DatabaseError msg)))
  /\ (has_nul dbname = true ->
      _ensure_database engine dbname w
      = ({| db := db w;
            log := (log w ++ [(database_query, [PyStr dbname])])%list;
            out := out w |},
         inl (ValueError nul_error))).
Proof.
  intros H H2. split; [|apply ensure_database_nul].
  intros Hnul. rewrite (ensure_database_absent _ _ _ Hnul H). unfold bind.
  match goal with
  | |- context [execute engine ?q None ?w1] =>
      rewrite (execute_fails q None w1 d2 msg eq_refl H2)
  end.
  cbn [db log out parameters]. now rewrite <- app_assoc.
Qed.

End Startup.

(** The database of the example, absent and then present. *)
Lemma ensure_database_creates_only_when_absent_witness :
  _ensure_database (database_engine true) "cg_db2" (fresh [])
  = ({| db := [];
        log := [(database_query, [PyStr "cg_db2"])];
        out := ["Database 'cg_db2' already exists."] |},
     inr tt)
  /\ _ensure_database (database_engine false) "cg_db2" (fresh [])
     = ({| db := [(("CREATE DATABASE " ++ quote_ident "cg_db2")%string,
                   [])];
           log := [(database_query, [PyStr "cg_db2"]);
                   (("CREATE DATABASE " ++ quote_ident "cg_db2")%string,
                    [])];
           out := ["Database 'cg_db2' did not exist. Created new database."]
         |},
        inr tt).
Proof.
  split.
  - exact (proj1
             (proj1
                (ensure_database_creates_only_when_absent (list call)
                   (database_engine true) "cg_db2" (fresh []) []
                   [[PyInt 1]] eq_refl)
                eq_refl)
             (PyInt 1) [] [] eq_refl).
  - exact (proj2
             (proj1
                (ensure_database_creates_only_when_absent (list call)
                   (database_engine false) "cg_db2" (fresh []) [] []
                   eq_refl)
                eq_refl)
             eq_refl
             [(("CREATE DATABASE " ++ quote_ident "cg_db2")%string, [])]
             Done eq_refl eq_refl).
Defined.

Lemma ensure_database_create_rejected_witness :
  _ensure_database racing_engine "cg_db2" (fresh [])
  = ({| db := [];
        log := [(database_query, [PyStr "cg_db2"]);
                (("CREATE DATABASE " ++ quote_ident "cg_db2")%string, [])];
        out := [] |},
     inl (DatabaseError duplicate_database)).
Proof.
  exact (proj1
           (ensure_database_create_rejected (list call) racing_engine
              "cg_db2" duplicate_database (fresh []) [] [] eq_refl eq_refl)
           eq_refl).
Defined.

(** ** One statement per call: delete, drop_table, select *)

Section SingleStatement.

Variable DB : Type.
Variable engine : string -> list pyval -> DB -> DB * reply.

(** An [execute] with parameters whose cursor is not read: either the
    client-side step raises and nothing reaches the engine, or the engine
    answers. *)
Lemma execute_only_cases (q : string) (p : list pyval) (w : world DB) :
  (_ <- execute engine q (Some p) ;; ret tt) w
  = match client_check q p with
    | inl e =>
        ({| db := db w; log := (log w ++ [(q, p)])%list; out := out w |},
         inl e)
    | inr _ =>
        ({| db := fst (engine q p (db w));
            log := (log w ++ [(q, p)])%list;
            out := out w |},
         match snd (engine q p (db w)) with
         | Fail msg => inl (DatabaseError msg)
         | _ => inr tt
         end)
    end.
Proof.
  unfold bind, execute, ret, merge, parameters.
  destruct (client_check q p) as [e|[]]; [reflexivity|].
  destruct (engine q p (db w)) as [d' []]; reflexivity.
Qed.

(** [delete] makes exactly one [execute] call: DELETE FROM the quoted
    table WHERE each key of the condition, quoted, equals a placeholder,
    joined by AND, with the condition's values in the mapping's order as
    parameters.  When the parameters cannot be merged into that text on
    the client, the exception of the client-side step is raised and
    nothing reaches the engine; otherwise the statement is sent, and
    [delete] raises only when the engine rejects it, with the engine's
    error. *)
Theorem delete_statement_and_result (t : string) (where_ : dict)
    (w : world DB) :
  delete engine t where_ w
  = match client_check
            ("DELETE FROM " ++ quote_ident t ++ " WHERE "
             ++ String.concat " AND " (map condition (keys where_)))
            (values where_) with
    | inl e =>
        ({| db := db w;
            log := (log w
                    ++ [(("DELETE FROM " ++ quote_ident t ++ " WHERE "
                          ++ String.concat " AND "
                               (map condition (keys where_)))%string,
                         values where_)])%list;
            out := out w |},
         inl e)
    | inr _ =>
        ({| db := fst (engine
                         ("DELETE FROM " ++ quote_ident t ++ " WHERE "
                          ++ String.concat " AND "
                               (map condition (keys where_)))
                         (values where_) (db w));
            log := (log w
                    ++ [(("DELETE FROM " ++ quote_ident t ++ " WHERE "
                          ++ String.concat " AND "
                               (map condition (keys where_)))%string,
                         values where_)])%list;
            out := out w |},
         match snd (engine
                      ("DELETE FROM " ++ quote_ident t ++ " WHERE "
                       ++ String.concat " AND "
                            (map condition (keys where_)))
                      (values where_) (db w)) with
         | Fail msg => inl (DatabaseError msg)
         | _ => inr tt
         end)
    end.
Proof. rewrite delete_run. apply execute_only_cases. Qed.

(** [drop_table] sends exactly one statement, DROP TABLE IF EXISTS and the
    quoted table name, with no parameter; it raises only when the engine
    rejects the statement. *)
Theorem drop_table_statement_and_result (t : string) (w : world DB) :
  drop_table engine t w
  = ({| db := fst (engine ("DROP TABLE IF EXISTS " ++ quote_ident t) []
                     (db w));
        log := (log w
                ++ [(("DROP TABLE IF EXISTS " ++ quote_ident t)%string,
                     [])])%list;
        out := out w |},
     match snd (engine ("DROP TABLE IF EXISTS " ++ quote_ident t) []
                  (db w)) with
     | Fail msg => inl (DatabaseError msg)
     | _ => inr tt
     end).
Proof.
  rewrite drop_table_run, execute_only.
  rewrite state_after_None, call_error_None. cbn [parameters].
  unfold flat_drop.
  destruct (snd (engine _ [] (db w))); reflexivity.
Qed.

(** An empty condition mapping is no condition for [select]: the statement
    has no WHERE clause and no parameter, and the call is the one made
    without a condition. *)
Theorem select_empty_condition_selects_all (t : string)
    (cols : list string) (w : world DB) :
  select engine t cols (Some []) w = select engine t cols None w
  /\ log (fst (select engine t cols (Some []) w))
     = (log w
        ++ [(("SELECT " ++ String.concat ", " (map quote_ident cols)
              ++ " FROM " ++ quote_ident t)%string, [])])%list.
Proof.
  split; [reflexivity|].
  rewrite select_run. cbn [where_keys where_values keys values map].
  unfold flat_select, flat_where. rewrite append_nil_r.
  unfold bind.
  destruct (execute_log DB engine
              ("SELECT " ++ String.concat ", " (map quote_ident cols)
               ++ " FROM " ++ quote_ident t) (Some []) w) as (Hl & _).
  revert Hl.
  destruct (execute engine _ _ w) as [w' [e|cur]]; intros Hl; exact Hl.
Qed.

(** [select] returns the rows the engine answered, each as a tuple, in
    the engine's order.  It raises the exception of the client-side step
    when the parameters cannot be merged into the text, the engine's
    error when the statement is rejected, and [ProgrammingError] when the
    statement is accepted without a result set. *)
Theorem select_returns_engine_rows (t : string) (cols : list string)
    (where_ : option dict) (w : world DB) :
  snd (select engine t cols where_ w)
  = match client_check (flat_select t cols (where_keys where_))
            (where_values where_) with
    | inl e => inl e
    | inr _ =>
        match snd (engine (flat_select t cols (where_keys where_))
                     (where_values where_) (db w)) with
        | Rows rs => inr (map PyTuple rs)
        | Done => inl ProgrammingError
        | Fail msg => inl (DatabaseError msg)
        end
    end.
Proof.
  rewrite select_run. unfold bind, execute, lift, merge, parameters.
  destruct (client_check _ _) as [e|[]]; [reflexivity|].
  destruct (engine _ _ (db w)) as [d' []]; reflexivity.
Qed.

(** A percent sign in a name stays in the quoted name and is read as a
    placeholder when the parameters are merged: the call raises
    [IndexError] on the client, whatever the engine, and nothing reaches
    the engine. *)
Example delete_percent_in_key (w : world DB) :
  delete engine "t" [("a%b", PyInt 7)] w
  = ({| db := db w;
        log := (log w ++ [(flat_delete "t" ["a%b"], [PyInt 7])])%list;
        out := out w |},
     inl IndexError).
Proof. rewrite delete_run, execute_only_cases. reflexivity. Qed.

Example select_percent_in_column (w : world DB) :
  select engine "t" ["a%b"] None w
  = ({| db := db w;
        log := (log w ++ [(flat_select "t" ["a%b"] [], [])])%list;
        out := out w |},
     inl IndexError).
Proof. rewrite select_run. reflexivity. Qed.

End SingleStatement.

(** ** Insert: failures, validation and composition *)

Section InsertRuns.

Variable DB : Type.
Variable engine : string -> list pyval -> DB -> DB * reply.

(** The loop either makes every call, or stops at the first call that
    raises -- on the client or because the engine rejects the statement --
    and raises that call's exception. *)
Lemma execute_each_outcome (text : string) (vals : list (list pyval))
    (w : world DB) :
  (all_accepted engine text vals (db w) = true
   /\ snd (execute_each engine text vals w) = inr tt
   /\ log (fst (execute_each engine text vals w))
      = (log w ++ map (pair text) vals)%list)
  \/ (exists k p e,
         nth_error vals k = Some p
         /\ all_accepted engine text (firstn k vals) (db w) = true
         /\ call_error engine text (Some p)
              (state_after_all engine text (firstn k vals) (db w))
            = Some e
         /\ execute_each engine text vals w
            = ({| db := state_after engine text (Some p)
                          (state_after_all engine text (firstn k vals)
                             (db w));
                  log := (log w
                          ++ map (pair text) (firstn (S k) vals))%list;
                  out := out w |},
               inl e)).
Proof.
  revert w. induction vals as [|p vals IH]; intros w.
  - left. simpl. now rewrite app_nil_r.
  - rewrite execute_each_cons. cbv zeta. cbn [all_accepted].
    destruct (call_error engine text (Some p) (db w)) as [e|] eqn:E.
    + right. exists 0, p, e. cbn [nth_error firstn all_accepted
                                   state_after_all map].
      repeat split. exact E.
    + match goal with
      | |- context [execute_each engine text vals ?w'] =>
          destruct (IH w') as [(Ha & Hr & Hl)|(k & p' & e & Hn & Ha & He & Hx)]
      end.
      * left. cbn [db] in Ha. rewrite Hr, Hl. cbn [log map].
        rewrite <- app_assoc. repeat split. exact Ha.
      * right. exists (S k), p', e.
        cbn [nth_error firstn all_accepted state_after_all map].
        rewrite E. cbn [db log out] in Ha, He, Hx.
        rewrite Hx, <- app_assoc.
        repeat split; assumption.
Qed.

(** A bulk insert is not all-or-nothing.  Either every call goes through
    and every row is sent; or the calls for the first [k] rows go through,
    the call for the next row raises -- on the client, when its values
    cannot be merged into the statement, or because the engine rejects
    it -- and [insert] raises that exception: the rows before it have been
    sent and stay sent, the rows after it are never sent. *)
Theorem insert_stops_at_first_rejected_row (t : string) (data : pyval)
    (first : dict) (rest : list dict) (w : world DB) :
  insert_data data (first :: rest) ->
  forallb (has_keys (keys first)) rest = true ->
  (all_accepted engine (flat_insert t (keys first))
     (map (bound (keys first)) (first :: rest)) (db w) = true
   /\ snd (insert engine t data w) = inr tt
   /\ log (fst (insert engine t data w))
      = (log w
         ++ map (fun row => (flat_insert t (keys first),
                             bound (keys first) row))
              (first :: rest))%list)
  \/ (exists k row e,
         nth_error (first :: rest) k = Some row
         /\ all_accepted engine (flat_insert t (keys first))
              (map (bound (keys first)) (firstn k (first :: rest))) (db w)
            = true
         /\ call_error engine (flat_insert t (keys first))
              (Some (bound (keys first) row))
              (state_after_all engine (flat_insert t (keys first))
                 (map (bound (keys first)) (firstn k (first :: rest)))
                 (db w))
            = Some e
         /\ insert engine t data w
            = ({| db := state_after engine (flat_insert t (keys first))
                          (Some (bound (keys first) row))
                          (state_after_all engine
                             (flat_insert t (keys first))
                             (map (bound (keys first))
                                (firstn k (first :: rest)))
                             (db w));
                  log := (log w
                          ++ map (fun row => (flat_insert t (keys first),
                                              bound (keys first) row))
                               (firstn (S k) (first :: rest)))%list;
                  out := out w |},
               inl e)).
Proof.
  intros Hshape Hkeys.
  rewrite (insert_run DB engine t data _ _ w
             (insert_values_ok _ _ _ Hshape Hkeys)).
  destruct (execute_each_outcome (flat_insert t (keys first))
              (map (bound (keys first)) (first :: rest)) w)
    as [(Ha & Hr & Hl)|(k & p & e & Hn & Ha & He & Hx)].
  - left. rewrite Hr, Hl, map_map. repeat split. exact Ha.
  - right. rewrite nth_error_map in Hn.
    destruct (nth_error (first :: rest) k) as [row|] eqn:Hrow;
      [|discriminate].
    cbn [option_map] in Hn. injection Hn as <-.
    rewrite !firstn_map in *. rewrite map_map in Hx.
    exists k, row, e. repeat split; assumption.
Qed.

(** An exception of [insert] is either its own, raised while it indexes
    [data] and before any call, the connection left as it was; or it is
    the exception of one of its [execute] calls, raised after the calls
    for the rows before have gone through. *)
Theorem insert_raises_before_executing (t : string) (data : pyval)
    (w : world DB) (e : exn) :
  snd (insert engine t data w) = inl e ->
  (insert_values data = inl e /\ insert engine t data w = (w, inl e))
  \/ (exists cols vals k p,
         insert_values data = inr (cols, vals)
         /\ nth_error vals k = Some p
         /\ all_accepted engine (flat_insert t cols) (firstn k vals) (db w)
            = true
         /\ call_error engine (flat_insert t cols) (Some p)
              (state_after_all engine (flat_insert t cols) (firstn k vals)
                 (db w))
            = Some e
         /\ log (fst (insert engine t data w))
            = (log w
               ++ map (pair (flat_insert t cols)) (firstn (S k) vals))%list).
Proof.
  intros H. destruct (insert_values data) as [e'|[cols vals]] eqn:E.
  - left. rewrite (insert_raises DB engine t data e' w E) in *.
    cbn [snd] in H. injection H as ->. split; reflexivity.
  - right. rewrite (insert_run DB engine t data cols vals w E) in *.
    destruct (execute_each_outcome (flat_insert t cols) vals w)
      as [(_ & Hr & _)|(k & p & e' & Hn & Ha & He & Hx)].
    + rewrite Hr in H. discriminate.
    + rewrite Hx in *. cbn [snd] in H. injection H as ->.
      exists cols, vals, k, p. repeat split; assumption.
Qed.

Lemma insert_each_run (t : string) (cols : list string)
    (rows : list dict) (w : world DB) :
  Forall (fun r => keys r = cols) rows ->
  insert_each engine t rows w
  = execute_each engine (flat_insert t cols) (map (bound cols) rows) w.
Proof.
  intros H. revert w. induction H as [|r rows Hr Hrows IH]; intros w.
  - reflexivity.
  - unfold insert_each. cbn [for_each map]. fold (insert_each engine t rows).
    unfold bind.
    rewrite (insert_run DB engine t (PyDict r) _ _ w
               (insert_values_ok _ _ _ (one_mapping r) eq_refl)).
    rewrite Hr. cbn [map]. rewrite !execute_each_cons. cbv zeta.
    destruct (call_error engine (flat_insert t cols) (Some (bound cols r))
                (db w));
      try reflexivity; cbn [execute_each for_each ret]; apply IH.
Qed.

(** Inserting a sequence of mappings that all have the first mapping's
    keys in the same order is the same as inserting the mappings one
    after the other, each with its own call of [insert]. *)
Theorem insert_bulk_is_sequence_of_single_inserts (t : string)
    (first : dict) (rest : list dict) (w : world DB) :
  Forall (fun r => keys r = keys first) rest ->
  insert engine t (PyList (map PyDict (first :: rest))) w
  = insert_each engine t (first :: rest) w.
Proof.
  intros H.
  assert (Hkeys : forallb (has_keys (keys first)) rest = true).
  { apply forallb_forall. intros r Hin.
    rewrite Forall_forall in H. rewrite <- (H r Hin).
    apply has_keys_self. }
  rewrite (insert_run DB engine t _ _ _ w
             (insert_values_ok _ _ _
                (list_of_mappings (first :: rest)) Hkeys)).
  symmetry. apply insert_each_run. now constructor.
Qed.

Lemma getitems_no_columns (rows : list pyval) :
  res_map (fun row => res_map (py_getitem row) []) rows
  = inr (repeat [] (length rows)).
Proof.
  induction rows as [|r rows IH]; [reflexivity|].
  change (res_map (fun row => res_map (py_getitem row) []) (r :: rows))
    with (bs <-? res_map (fun row => res_map (py_getitem row) []) rows ;;
          inr (@nil pyval :: bs)).
  now rewrite IH.
Qed.

(** An empty mapping as first element switches every check off: there is
    no column to index the elements by, so whatever the other elements
    are, one INSERT statement with an empty column list and no parameter
    is sent per element. *)
Theorem insert_empty_first_mapping_checks_nothing (t : string)
    (others : list pyval) (w : world DB) :
  insert engine t (PyList (PyDict [] :: others)) w
  = execute_each engine
      ("INSERT INTO " ++ quote_ident t ++ " () VALUES ()")
      (repeat [] (S (length others))) w.
Proof.
  apply (insert_run DB engine t (PyList (PyDict [] :: others)) []
           (repeat [] (S (length others))) w).
  change (insert_values (PyList (PyDict [] :: others)))
    with (values <-? res_map (fun row => res_map (py_getitem row) [])
                       (PyDict [] :: others) ;;
          inr (@nil string, values)).
  now rewrite getitems_no_columns.
Qed.

Lemma res_map_length {A B : Type} (f : A -> res B) (l : list A)
    (l' : list B) :
  res_map f l = inr l' -> length l' = length l.
Proof.
  revert l'. induction l as [|a l IH]; intros l' H.
  - injection H as <-. reflexivity.
  - cbn [res_map] in H. unfold res_bind in H.
    destruct (f a) as [e|b]; [discriminate|].
    destruct (res_map f l) as [e|bs]; [discriminate|].
    injection H as <-. simpl. now rewrite (IH bs eq_refl).
Qed.

Lemma res_map_Forall {A B : Type} (f : A -> res B) (P : B -> Prop)
    (l : list A) (l' : list B) :
  (forall a b, f a = inr b -> P b) ->
  res_map f l = inr l' -> Forall P l'.
Proof.
  intros HP. revert l'. induction l as [|a l IH]; intros l' H.
  - injection H as <-. constructor.
  - cbn [res_map] in H. unfold res_bind in H.
    destruct (f a) as [e|b] eqn:E; [discriminate|].
    destruct (res_map f l) as [e|bs]; [discriminate|].
    injection H as <-. constructor; [now apply (HP a)|now apply IH].
Qed.

Lemma placeholders_intersperse (sep : string) (l : list Composable) :
  list_sum (map placeholders (intersperse (SQL sep) l))
  = list_sum (map placeholders l).
Proof.
  induction l as [|x l IH]; [reflexivity|].
  destruct l as [|y l]; [reflexivity|].
  change (intersperse (SQL sep) (x :: y :: l))
    with (x :: SQL sep :: intersperse (SQL sep) (y :: l)).
  unfold list_sum in *. cbn [map fold_right placeholders] in *.
  now rewrite IH.
Qed.

Lemma placeholders_idents (cols : list string) :
  list_sum (map placeholders (map Identifier cols)) = 0.
Proof. induction cols as [|c cols IH]; [reflexivity|exact IH]. Qed.

Lemma placeholders_repeat (n : nat) :
  list_sum (map placeholders (repeat Placeholder n)) = n.
Proof.
  induction n as [|n IH]; [reflexivity|].
  cbn [repeat map]. unfold list_sum in *. cbn [fold_right placeholders].
  now rewrite IH.
Qed.

Lemma insert_sql_placeholders (t : string) (cols : list string) :
  exists q, insert_sql t cols = inr q /\ placeholders q = length cols.
Proof.
  eexists. split; [apply insert_sql_eq|].
  cbn [placeholders map]. unfold join. cbn [placeholders].
  rewrite !placeholders_intersperse, placeholders_idents,
    placeholders_repeat.
  unfold list_sum. cbn [fold_right Nat.add]. now rewrite Nat.add_0_r.
Qed.

(** Whenever [insert] gets as far as building its statement, the
    statement has one placeholder per column and every row it is about to
    execute binds exactly that many parameters. *)
Theorem insert_placeholders_match_parameters (t : string) (data : pyval)
    (cols : list string) (vals : list (list pyval)) :
  insert_values data = inr (cols, vals) ->
  exists q,
    insert_sql t cols = inr q
    /\ placeholders q = length cols
    /\ Forall (fun p => length p = placeholders q) vals.
Proof.
  intros H. destruct (insert_sql_placeholders t cols) as (q & Hq & Hn).
  exists q. split; [exact Hq|]. split; [exact Hn|]. rewrite Hn.
  unfold insert_values in H.
  destruct (py_getitem0 _) as [e|[| | | | | |d0]]; try discriminate.
  cbn [res_bind] in H.
  destruct (py_iter _) as [e|rows]; [discriminate|]. cbn [res_bind] in H.
  destruct (res_map _ rows) as [e|vs] eqn:E; [discriminate|].
  injection H as <- <-.
  refine (res_map_Forall _ _ rows vs _ E).
  intros row p Hp. now apply res_map_length in Hp.
Qed.

End InsertRuns.

(** Three rows on an engine that accepts one statement: the second row is
    rejected, the third is never sent. *)
Lemma insert_stops_at_first_rejected_row_witness :
  forallb (has_keys (keys item1)) [item2; item3] = true
  /\ exists k row e,
       nth_error [item1; item2; item3] k = Some row
       /\ call_error (limited_engine 1)
            (flat_insert "test_table" (keys item1))
            (Some (bound (keys item1) row))
            (state_after_all (limited_engine 1)
               (flat_insert "test_table" (keys item1))
               (map (bound (keys item1)) (firstn k [item1; item2; item3]))
               [])
          = Some e
       /\ snd (insert (limited_engine 1) "test_table"
                 (PyList (map PyDict [item1; item2; item3])) (fresh []))
          = inl e
       /\ log (fst (insert (limited_engine 1) "test_table"
                      (PyList (map PyDict [item1; item2; item3]))
                      (fresh [])))
          = map (fun row => (flat_insert "test_table" (keys item1),
                             bound (keys item1) row))
              (firstn (S k) [item1; item2; item3]).
Proof.
  split; [reflexivity|].
  destruct (insert_stops_at_first_rejected_row (list call)
              (limited_engine 1) "test_table"
              (PyList (map PyDict [item1; item2; item3]))
              item1 [item2; item3] (fresh [])
              (list_of_mappings [item1; item2; item3]) eq_refl)
    as [(Ha & _)|(k & row & e & Hn & _ & He & Hx)].
  - vm_compute in Ha. discriminate Ha.
  - exists k, row, e. rewrite Hx. repeat split; assumption.
Defined.

(** A tuple after a mapping: [TypeError], and nothing was sent. *)
Lemma insert_raises_before_executing_witness :
  insert accepting_engine "t" (PyList [PyDict row_ab; PyTuple [PyInt 1]])
    (fresh [])
  = (fresh [], inl TypeError).
Proof.
  destruct (insert_raises_before_executing (list call) accepting_engine
              "t" (PyList [PyDict row_ab; PyTuple [PyInt 1]]) (fresh [])
              TypeError eq_refl)
    as [(_ & H)|(cols & vals & k & p & Hv & _)].
  - exact H.
  - discriminate Hv.
Defined.

(** A NUL character in a value of the second row: the first row has been
    sent when the second call raises [ValueError] on the client; the
    third row is never sent. *)
Example insert_nul_in_second_row :
  insert accepting_engine "t"
    (PyList [PyDict [("a", PyStr "x")];
             PyDict [("a", PyStr (String nul "y"))];
             PyDict [("a", PyStr "z")]])
    (fresh [])
  = ({| db := [(flat_insert "t" ["a"], [PyStr "x"])];
        log := [(flat_insert "t" ["a"], [PyStr "x"]);
                (flat_insert "t" ["a"], [PyStr (String nul "y")])];
        out := [] |},
     inl (ValueError nul_error)).
Proof. reflexivity. Qed.

(** A percent sign in a key, a mapping as a value: the call raises on the
    client and the engine receives nothing. *)
Example insert_percent_in_key :
  insert accepting_engine "t" (PyDict [("a%b", PyInt 1)]) (fresh [])
  = ({| db := [];
        log := [(flat_insert "t" ["a%b"], [PyInt 1])];
        out := [] |},
     inl IndexError).
Proof. reflexivity. Qed.

Example insert_mapping_as_value :
  insert accepting_engine "t" (PyDict [("a", PyDict [])]) (fresh [])
  = ({| db := [];
        log := [(flat_insert "t" ["a"], [PyDict []])];
        out := [] |},
     inl ProgrammingError).
Proof. reflexivity. Qed.

(** Two rows of the example, first together and then one by one. *)
Lemma insert_bulk_is_sequence_of_single_inserts_witness :
  insert accepting_engine "test_table" (PyList (map PyDict [item1; item3]))
    (fresh [])
  = insert_each accepting_engine "test_table" [item1; item3] (fresh []).
Proof.
  exact (insert_bulk_is_sequence_of_single_inserts (list call)
           accepting_engine "test_table" item1 [item3] (fresh [])
           (Forall_cons item3 eq_refl (Forall_nil _))).
Defined.

Lemma insert_placeholders_match_parameters_witness :
  exists q,
    insert_sql "test_table" ["name"; "value"] = inr q
    /\ placeholders q = 2
    /\ Forall (fun p => length p = placeholders q)
         [[PyStr "Item 1"; PyInt 10]; [PyStr "Item 2"; PyInt 20]].
Proof.
  exact (insert_placeholders_match_parameters "test_table"
           (PyList (map PyDict [item1; item2]))
           ["name"; "value"]
           [[PyStr "Item 1"; PyInt 10]; [PyStr "Item 2"; PyInt 20]]
           eq_refl).
Defined.

(** ** Table creation: a rejected statement *)

Section TableCreationErrors.

Variable DB : Type.
Variable engine : string -> list pyval -> DB -> DB * reply.

(** When the engine rejects the CREATE TABLE statement, [create_table]
    raises the engine's error: the catalog is not queried and nothing is
    reported. *)
Theorem create_table_rejected_reports_nothing (t msg : string)
    (columns : list (string * string)) (w : world DB) (d1 : DB) :
  engine (flat_create t columns) [] (db w) = (d1, Fail msg) ->
  create_table engine t columns w
  = ({| db := d1;
        log := (log w ++ [(flat_create t columns, [])])%list;
        out := out w |},
     inl (DatabaseError msg)).
Proof.
  intros H.
  destruct (create_table_query_text t columns) as (q & Hq & Ht).
  unfold create_table, bind at 1, lift at 1. rewrite Hq. cbv beta iota.
  rewrite Ht. unfold bind at 1.
  now rewrite (execute_fails DB engine _ None w d1 msg eq_refl H).
Qed.

End TableCreationErrors.

(** The table of the example on an engine that accepts nothing. *)
Lemma create_table_rejected_reports_nothing_witness :
  create_table (limited_engine 0) "test_table" test_columns (fresh [])
  = ({| db := [];
        log := [(flat_create "test_table" test_columns, [])];
        out := [] |},
     inl (DatabaseError "rejected")).
Proof.
  exact (create_table_rejected_reports_nothing (list call)
           (limited_engine 0) "test_table" "rejected" test_columns
           (fresh []) [] eq_refl).
Defined.

(** ** Insert of one mapping *)

Section SingleInsert.

Variable DB : Type.
Variable engine : string -> list pyval -> DB -> DB * reply.

Lemma bound_keys_values (d : dict) :
  NoDup (keys d) -> bound (keys d) d = values d.
Proof.
  induction d as [|[k v] d IH]; intros Hnd; [reflexivity|].
  cbn [keys map fst] in Hnd. inversion Hnd as [|k' ks Hnotin Hnd']; subst.
  change (bound (keys ((k, v) :: d)) ((k, v) :: d))
    with (match dict_get ((k, v) :: d) k with
          | Some x => [x]
          | None => []
          end ++ bound (keys d) ((k, v) :: d))%list.
  cbn [dict_get]. rewrite String.eqb_refl.
  change (values ((k, v) :: d)) with (v :: values d).
  cbn [app]. f_equal. rewrite <- (IH Hnd').
  destruct (bound_agree (keys d) d ((k, v) :: d)) as [Hb _]; [|exact Hb].
  intros c Hc. cbn [dict_get].
  destruct (String.eqb k c) eqn:E; [|reflexivity].
  apply String.eqb_eq in E. subst c. contradiction.
Qed.

(** [insert] of a single mapping with distinct keys makes one [execute]
    call: the INSERT statement whose column list is the mapping's keys,
    quoted, in the mapping's order, with the mapping's values in the same
    order as parameters.  When the values cannot be merged into that text
    on the client, the exception of the client-side step is raised and
    nothing reaches the engine; otherwise the statement is sent, and
    [insert] raises only when the engine rejects it. *)
Theorem insert_single_mapping (t : string) (d : dict) (w : world DB) :
  NoDup (keys d) ->
  insert engine t (PyDict d) w
  = match client_check (flat_insert t (keys d)) (values d) with
    | inl e =>
        ({| db := db w;
            log := (log w ++ [(flat_insert t (keys d), values d)])%list;
            out := out w |},
         inl e)
    | inr _ =>
        ({| db := fst (engine (flat_insert t (keys d)) (values d) (db w));
            log := (log w ++ [(flat_insert t (keys d), values d)])%list;
            out := out w |},
         match snd (engine (flat_insert t (keys d)) (values d) (db w)) with
         | Fail msg => inl (DatabaseError msg)
         | _ => inr tt
         end)
    end.
Proof.
  intros Hnd.
  rewrite (insert_run DB engine t (PyDict d) _ _ w
             (insert_values_ok _ _ _ (one_mapping d) eq_refl)).
  cbn [map]. rewrite (bound_keys_values d Hnd), execute_each_cons.
  cbv zeta. unfold call_error, state_after, merge, parameters.
  destruct (client_check _ _) as [e|[]]; [reflexivity|].
  destruct (snd (engine (flat_insert t (keys d)) (values d) (db w)));
    reflexivity.
Qed.

End SingleInsert.

(** The first insert of the example. *)
Lemma insert_single_mapping_witness :
  NoDup (keys item1)
  /\ insert accepting_engine "test_table" (PyDict item1) (fresh [])
     = ({| db := [(flat_insert "test_table" ["name"; "value"],
                   [PyStr "Item 1"; PyInt 10])];
           log := [(flat_insert "test_table" ["name"; "value"],
                    [PyStr "Item 1"; PyInt 10])];
           out := [] |},
        inr tt).
Proof.
  assert (Hnd : NoDup (keys item1)).
  { repeat constructor; simpl; intuition discriminate. }
  split; [exact Hnd|].
  exact (insert_single_mapping (list call) accepting_engine "test_table"
           item1 (fresh []) Hnd).
Defined.
